(** * The credential import command ([n8n import:credentials])

    A shallow embedding of [ImportCredentialsCommand]
    (packages/cli, commands/import/credentials.ts): its [run], [catch],
    [reportSuccess], [storeCredential], [getOwner] and [getAssignee]
    methods, over explicit models of what the command talks to: the
    parsed JSON values, the file system, the user table, and a
    transactional store holding the credential table, the
    ownership-link table and the Postgres identifier sequence. *)

From Stdlib Require Import List String Ascii ZArith Bool Arith Lia DecimalString.
Import ListNotations.
Set Warnings "-register-all".
Open Scope string_scope.

(* ------------------------------------------------------------------ *)
(** ** JavaScript values, as far as the command looks at them *)

Module Js.

(** What [JSON.parse] can return. *)
Inductive json : Type :=
| JNull
| JBool (b : bool)
| JNum (n : Z)
| JStr (s : string)
| JArr (items : list json)
| JObj (fields : list (string * json)).

(** A property read yields a JSON value or [undefined] ([None]). *)
Definition value : Type := option json.

Inductive exn : Type :=
| Error (message : string)
| TypeError (message : string)
| SyntaxError (message : string)
| SystemError (code path : string)
| QueryFailedError (message : string).

(** [error.message]; for the errors of [fs.readFileSync] the text node
    gives them. *)
Definition message (e : exn) : string :=
  match e with
  | Error m | TypeError m | SyntaxError m | QueryFailedError m => m
  | SystemError code path =>
      if code =? "ENOENT"
      then "ENOENT: no such file or directory, open '" ++ path ++ "'"
      else if code =? "EISDIR"
      then "EISDIR: illegal operation on a directory, read"
      else code
  end.

Inductive result (A : Type) : Type :=
| Ok (a : A)
| Throw (e : exn).
Arguments Ok {A} a.
Arguments Throw {A} e.

(** [typeof v] *)
Definition typeof (v : value) : string :=
  match v with
  | None => "undefined"
  | Some JNull | Some (JArr _) | Some (JObj _) => "object"
  | Some (JBool _) => "boolean"
  | Some (JNum _) => "number"
  | Some (JStr _) => "string"
  end.

(** Truthiness of an optional string flag: [undefined] and the empty
    string are falsy. *)
Definition truthy (s : option string) : bool :=
  match s with
  | Some s => negb (s =? "")
  | None => false
  end.

Fixpoint assoc {A : Type} (k : string) (l : list (string * A)) : option A :=
  match l with
  | [] => None
  | (k', a) :: l' => if k' =? k then Some a else assoc k l'
  end.

(** Insert-or-replace by key: the first row under [k] is replaced where
    it stands, a new key is appended. *)
Fixpoint upsert {A : Type} (k : string) (a : A) (l : list (string * A))
  : list (string * A) :=
  match l with
  | [] => [(k, a)]
  | (k', a') :: l' =>
      if k' =? k then (k, a) :: l' else (k', a') :: upsert k a l'
  end.

(** [v.prop] for a parsed value [v]: reading a property of [null]
    throws; arrays and strings have a [length]; primitives have no
    other property. *)
Definition get (v : json) (prop : string) : result value :=
  match v with
  | JNull =>
      Throw (TypeError
               ("Cannot read properties of null (reading '" ++ prop ++ "')"))
  | JObj fields => Ok (assoc prop fields)
  | JArr items =>
      Ok (if prop =? "length"
          then Some (JNum (Z.of_nat (List.length items))) else None)
  | JStr s =>
      Ok (if prop =? "length"
          then Some (JNum (Z.of_nat (String.length s))) else None)
  | JBool _ | JNum _ => Ok None
  end.

(** [Array.isArray v] *)
Definition isArray (v : json) : bool :=
  match v with JArr _ => true | _ => false end.

(** The elements a [for ... of] loop over an array visits. *)
Definition elements (v : json) : list json :=
  match v with JArr items => items | _ => [] end.

(** [obj.prop = v] on an object. *)
Definition set (obj : json) (prop : string) (v : json) : json :=
  match obj with
  | JObj fields => JObj (upsert prop v fields)
  | other => other
  end.

Definition decimal (n : Z) : string := NilZero.string_of_int (Z.to_int n).

(** String conversion inside a template literal. *)
Fixpoint toString (v : json) : string :=
  match v with
  | JNull => "null"
  | JBool true => "true"
  | JBool false => "false"
  | JNum n => decimal n
  | JStr s => s
  | JArr items =>
      String.concat ","
        (map (fun x => match x with JNull => "" | _ => toString x end) items)
  | JObj _ => "[object Object]"
  end.

Definition template (v : value) : string :=
  match v with
  | None => "undefined"
  | Some j => toString j
  end.

(** [s.replace(/\\/g, '/')] *)
Fixpoint replace_backslashes (s : string) : string :=
  match s with
  | EmptyString => EmptyString
  | String c s' =>
      String (if Ascii.eqb c "\"%char then "/"%char else c)
             (replace_backslashes s')
  end.

End Js.
Import Js.

(* ------------------------------------------------------------------ *)
(** ** The store *)

(** A row of the ownership-link table ([SharedCredentials]). *)
Record SharedCredentials : Type := {
  credentialsId : string;
  userId : string;
  role : string
}.

Record User : Type := {
  id : string;
  user_role : string
}.

(** The tables the command writes, and the identifier sequence of the
    credential table (Postgres; [None] until a [setval] has run). *)
Record Db : Type := {
  credentials_entity : list (string * json);
  shared_credentials : list SharedCredentials;
  credentials_entity_id_seq : option string
}.

Inductive statement : Type :=
| UpsertCredentials (row : json)
| UpsertSharedCredentials (link : SharedCredentials)
| Query (sql : string).

Inductive event : Type :=
| START_TRANSACTION
| Statement (s : statement)
| COMMIT
| ROLLBACK.

Inductive logline : Type :=
| Info (text : string)
| LogError (text : string).

(** Same key of the ownership-link table: the pair
    [(credentialsId, userId)]. *)
Definition same_link (a b : SharedCredentials) : bool :=
  (credentialsId a =? credentialsId b) && (userId a =? userId b).

Fixpoint upsert_link (l : SharedCredentials) (t : list SharedCredentials)
  : list SharedCredentials :=
  match t with
  | [] => [l]
  | l' :: t' => if same_link l' l then l :: t' else l' :: upsert_link l t'
  end.

(** [SELECT MAX(id)] over a column of identifiers, in the order [le] of
    the column; NULL ([None]) for an empty column. *)
Definition max_id (le : string -> string -> bool) (ids : list string)
  : option string :=
  fold_left (fun acc i =>
               match acc with
               | None => Some i
               | Some m => Some (if le m i then i else m)
               end) ids None.

(** [setval(seq, m)]; with a NULL argument the sequence is left alone. *)
Definition setval (m : option string) (db : Db) : Db :=
  match m with
  | Some _ =>
      {| credentials_entity := credentials_entity db;
         shared_credentials := shared_credentials db;
         credentials_entity_id_seq := m |}
  | None => db
  end.

(* ------------------------------------------------------------------ *)
(** ** What the command is given *)

Inductive node : Type :=
| File (content : string)
| Directory.

Record Flags : Type := {
  input : option string;
  separate : bool;
  flag_userId : option string
}.

(** The collaborators of the command: file system, glob, JSON parser,
    settings, configuration, the user table, the constants it imports,
    and the faults of the database (the [n]-th statement of a
    transaction, counted from 0, fails when [db_fails n]).  [id_le] is
    the order of the identifier column, by which [MAX(id)] is taken
    (the numeric order, for a column of numbers); [JSON_error] is the
    message of the error the engine's [JSON.parse] throws for a text. *)
Record Env : Type := {
  fs : string -> option node;
  glob_json : string -> list string;
  platform : string;
  JSON_parse : string -> option json;
  encryptionKey : string;
  encrypt : json -> string -> string;
  database_type : string;
  tablePrefix : string;
  users : list User;
  GLOBAL_OWNER : string;
  CREDENTIAL_OWNER : string;
  UM_FIX_INSTRUCTION : string;
  db_fails : nat -> bool;
  id_le : string -> string -> bool;
  JSON_error : string -> string
}.

Definition existsSync (env : Env) (p : string) : bool :=
  match fs env p with Some _ => true | None => false end.

(** [fs.lstatSync(p).isDirectory()], on a path that exists. *)
Definition isDirectory (env : Env) (p : string) : bool :=
  match fs env p with Some Directory => true | _ => false end.

Definition readFileSync (env : Env) (p : string) : result string :=
  match fs env p with
  | Some (File content) => Ok content
  | Some Directory => Throw (SystemError "EISDIR" p)
  | None => Throw (SystemError "ENOENT" p)
  end.

(** [jsonParse] of n8n-workflow, called without options: [JSON.parse],
    whose error is thrown on. *)
Definition jsonParse (env : Env) (s : string) : result json :=
  match JSON_parse env s with
  | Some v => Ok v
  | None => Throw (SyntaxError (JSON_error env s))
  end.

(** [Db.collections.User.findOneBy] *)
Definition findOneBy (env : Env) (p : User -> bool) : option User :=
  find p (users env).

(* ------------------------------------------------------------------ *)
(** ** Statements inside a transaction *)

Record TxState : Type := {
  tdb : Db;
  executed : list statement
}.

Definition tx (A : Type) : Type := TxState -> result A * TxState.

Definition ret {A : Type} (a : A) : tx A := fun st => (Ok a, st).

Definition throw {A : Type} (e : exn) : tx A := fun st => (Throw e, st).

Definition bind {A B : Type} (m : tx A) (k : A -> tx B) : tx B :=
  fun st =>
    match m st with
    | (Ok a, st') => k a st'
    | (Throw e, st') => (Throw e, st')
    end.

Declare Scope tx_scope.
Delimit Scope tx_scope with tx.
Notation "x <- m ;; k" := (bind m (fun x => k))
  (at level 61, m at next level, right associativity) : tx_scope.
Notation "m ;; k" := (bind m (fun _ => k))
  (at level 61, right associativity) : tx_scope.
Open Scope tx_scope.

Definition lift {A : Type} (r : result A) : tx A :=
  match r with
  | Ok a => ret a
  | Throw e => throw e
  end.

(** One statement sent through the transaction manager: it fails when
    the database does, and otherwise has its effect and is recorded. *)
Definition execute (env : Env) (s : statement) (effect : Db -> Db) : tx unit :=
  fun st =>
    if db_fails env (List.length (executed st))
    then (Throw (QueryFailedError "statement failed"), st)
    else (Ok tt, {| tdb := effect (tdb st); executed := executed st ++ [s] |}).

Definition put_credential (i : string) (row : json) (db : Db) : Db :=
  {| credentials_entity := upsert i row (credentials_entity db);
     shared_credentials := shared_credentials db;
     credentials_entity_id_seq := credentials_entity_id_seq db |}.

Definition put_link (l : SharedCredentials) (db : Db) : Db :=
  {| credentials_entity := credentials_entity db;
     shared_credentials := upsert_link l (shared_credentials db);
     credentials_entity_id_seq := credentials_entity_id_seq db |}.

(** [transactionManager.upsert(CredentialsEntity, credential, ['id'])],
    giving back [result.identifiers[0].id], for the records of an
    export: objects with a string [id].  Identifiers are not generated
    ([disableAutoGeneratedIds]), so an object without [id] is refused.
    Any other value is taken as refused too; what the database layer
    does with one (an [id] that is a number, an array taken as a batch
    of rows) is not described here, and the statements below that
    depend on it say that their records carry a string identifier. *)
Definition upsertCredentialsEntity (env : Env) (credential : json) : tx string :=
  match credential with
  | JObj fields =>
      match assoc "id" fields with
      | Some (JStr i) =>
          execute env (UpsertCredentials credential) (put_credential i credential) ;;
          ret i
      | _ => throw (QueryFailedError "null value in column id")
      end
  | _ => throw (QueryFailedError "null value in column id")
  end.

(** [transactionManager.upsert(SharedCredentials, link,
    ['credentialsId', 'userId'])] *)
Definition upsertSharedCredentials (env : Env) (l : SharedCredentials) : tx unit :=
  execute env (UpsertSharedCredentials l) (put_link l).

Definition setval_sql (env : Env) : string :=
  "SELECT setval('" ++ tablePrefix env ++ "credentials_entity_id_seq', (SELECT MAX(id) from "
    ++ tablePrefix env ++ "credentials_entity))".

(** [transactionManager.query] of the sequence repair. *)
Definition query_setval (env : Env) : tx unit :=
  execute env (Query (setval_sql env))
    (fun db => setval (max_id (id_le env) (map fst (credentials_entity db))) db).

(** What a rollback leaves: the tables as they were when the
    transaction started.  The sequence is not transactional: a [setval]
    the aborted transaction has run is not undone. *)
Definition rolled_back (db aborted : Db) : Db :=
  {| credentials_entity := credentials_entity db;
     shared_credentials := shared_credentials db;
     credentials_entity_id_seq := credentials_entity_id_seq aborted |}.

(** [Db.getConnection().transaction(body)]: the body runs on the tables;
    when it returns they are committed, when it throws the transaction
    is rolled back and the error is thrown on.  Starting and committing
    are taken not to fail. *)
Definition transaction (body : tx unit) (db : Db)
  : result unit * Db * list event :=
  match body {| tdb := db; executed := [] |} with
  | (Ok _, st) =>
      (Ok tt, tdb st, START_TRANSACTION :: map Statement (executed st) ++ [COMMIT])
  | (Throw e, st) =>
      (Throw e, rolled_back db (tdb st),
       START_TRANSACTION :: map Statement (executed st) ++ [ROLLBACK])
  end.

(* ------------------------------------------------------------------ *)
(** ** The command *)

Module ImportCredentialsCommand.

(** Modelled from the spec: [Credentials.prototype.setData] of n8n-core
    is not among the sources; by the spec it replaces the [data] field
    of the record it is called on with the encrypted string
    representation of the payload, under the given key. *)
Definition setData (env : Env) (credential data : json) (key : string) : json :=
  set credential "data" (JStr (encrypt env data key)).

Definition link_of (env : Env) (i : string) (user : User) : SharedCredentials :=
  {| credentialsId := i; userId := id user; role := CREDENTIAL_OWNER env |}.

Definition storeCredential (env : Env) (credential : json) (user : User)
  : tx unit :=
  i <- upsertCredentialsEntity env credential ;;
  upsertSharedCredentials env (link_of env i user) ;;
  if database_type env =? "postgresdb"
  then query_setval env
  else ret tt.

Definition getOwner (env : Env) : result User :=
  match findOneBy env (fun u => user_role u =? GLOBAL_OWNER env) with
  | None => Throw (Error ("Failed to find owner. " ++ UM_FIX_INSTRUCTION env))
  | Some owner => Ok owner
  end.

Definition getAssignee (env : Env) (userId : string) : result User :=
  match findOneBy env (fun u => id u =? userId) with
  | None => Throw (Error ("Failed to find user with ID " ++ userId))
  | Some user => Ok user
  end.

Definition reportSuccess (total : value) : logline :=
  Info ("Successfully imported " ++ template total ++ " "
          ++ match total with
             | Some (JNum 1) => "credential."
             | _ => "credentials."
             end).

Definition catch (error : exn) : list logline :=
  [ LogError "An error occurred while importing credentials. See log messages for details.";
    LogError (message error) ].

(** The body both loops of [run] share: encrypt a payload that is
    still an object, under [this.userSettings.encryptionKey], then
    store the record. *)
Definition importCredential (env : Env) (user : User) (credential : json)
  : tx unit :=
  data <- lift (get credential "data") ;;
  let credential :=
    if typeof data =? "object"
    then match data with
         | Some d => setData env credential d (encryptionKey env)
         | None => credential
         end
    else credential in
  storeCredential env credential user.

(** [for (const credential of credentials)] *)
Fixpoint for_credentials (env : Env) (user : User) (credentials : list json)
  : tx unit :=
  match credentials with
  | [] => ret tt
  | credential :: rest =>
      importCredential env user credential ;;
      for_credentials env user rest
  end.

(** [for (const file of files)] *)
Fixpoint for_files (env : Env) (user : User) (files : list string)
  : tx unit :=
  match files with
  | [] => ret tt
  | file :: rest =>
      content <- lift (readFileSync env file) ;;
      credential <- lift (jsonParse env content) ;;
      importCredential env user credential ;;
      for_files env user rest
  end.

(** What an invocation leaves behind: the error it threw, if any, the
    lines it logged, the tables, and what the database was sent. *)
Record Outcome : Type := {
  thrown : option exn;
  logged : list logline;
  storage : Db;
  trace : list event
}.

Definition returned (lines : list logline) (db : Db) (tr : list event) : Outcome :=
  {| thrown := None; logged := lines; storage := db; trace := tr |}.

Definition threw (e : exn) (db : Db) (tr : list event) : Outcome :=
  {| thrown := Some e; logged := []; storage := db; trace := tr |}.

Definition flag_value (s : option string) : string :=
  match s with Some s => s | None => "" end.

(** [flags.userId ? await this.getAssignee(flags.userId)
                    : await this.getOwner()] *)
Definition assignee (env : Env) (flags : Flags) : result User :=
  if truthy (flag_userId flags)
  then getAssignee env (flag_value (flag_userId flags))
  else getOwner env.

(** [process.platform === 'win32' ? inputPath.replace(/\\/g, '/')
                                  : inputPath] *)
Definition inputPath (env : Env) (flags : Flags) : string :=
  if platform env =? "win32"
  then replace_backslashes (flag_value (input flags))
  else flag_value (input flags).

Definition not_an_array : exn :=
  Error "File does not seem to contain credentials. Make sure the credentials are contained in an array.".

Definition run (env : Env) (flags : Flags) (db : Db) : Outcome :=
  if negb (truthy (input flags)) then
    returned [Info "An input file or directory with --input must be provided"] db []
  else
    let flags_input := flag_value (input flags) in
    if separate flags && existsSync env flags_input
       && negb (isDirectory env flags_input) then
      returned [Info "The argument to --input must be a directory"] db []
    else
      match assignee env flags with
      | Throw e => threw e db []
      | Ok user =>
          if separate flags then
            let files := glob_json env (inputPath env flags) in
            let totalImported := Some (JNum (Z.of_nat (List.length files))) in
            match transaction (for_files env user files) db with
            | (Throw e, db', tr) => threw e db' tr
            | (Ok _, db', tr) => returned [reportSuccess totalImported] db' tr
            end
          else
            match readFileSync env flags_input with
            | Throw e => threw e db []
            | Ok content =>
            match jsonParse env content with
            | Throw e => threw e db []
            | Ok credentials =>
            match get credentials "length" with
            | Throw e => threw e db []
            | Ok totalImported =>
                if negb (isArray credentials) then
                  threw not_an_array db []
                else
                  match transaction
                          (for_credentials env user (elements credentials))
                          db with
                  | (Throw e, db', tr) => threw e db' tr
                  | (Ok _, db', tr) => returned [reportSuccess totalImported] db' tr
                  end
            end end end
      end.

(** The command as the CLI framework drives it: an error thrown by
    [run] is handed to [catch]. *)
Definition invoke (env : Env) (flags : Flags) (db : Db) : list logline * Db :=
  let o := run env flags db in
  match thrown o with
  | Some e => ((logged o ++ catch e)%list, storage o)
  | None => (logged o, storage o)
  end.

End ImportCredentialsCommand.
Import ImportCredentialsCommand.

(* ------------------------------------------------------------------ *)
(** ** Vocabulary of the statements proved below *)

(** The identifier under which the database files a record. *)
Definition record_id (credential : json) : option string :=
  match credential with
  | JObj fields =>
      match assoc "id" fields with
      | Some (JStr i) => Some i
      | _ => None
      end
  | _ => None
  end.

Definition ids_of (credentials : list json) : list string :=
  flat_map (fun c => match record_id c with Some i => [i] | None => [] end)
           credentials.

(** The record as [importCredential] hands it to [storeCredential]. *)
Definition prepared (env : Env) (credential : json) : json :=
  match get credential "data" with
  | Ok (Some d) =>
      if typeof (Some d) =? "object"
      then setData env credential d (encryptionKey env)
      else credential
  | _ => credential
  end.

(** What a statement does to the tables. *)
Definition effect (env : Env) (s : statement) (db : Db) : Db :=
  match s with
  | UpsertCredentials row =>
      match record_id row with
      | Some i => put_credential i row db
      | None => db
      end
  | UpsertSharedCredentials l => put_link l db
  | Query _ => setval (max_id (id_le env) (map fst (credentials_entity db))) db
  end.

Definition replay (env : Env) (stmts : list statement) (db : Db) : Db :=
  fold_left (fun d s => effect env s d) stmts db.

(** The statements [storeCredential] sends for a prepared record filed
    under [i]. *)
Definition store_statements (env : Env) (user : User) (i : string) (row : json)
  : list statement :=
  UpsertCredentials row :: UpsertSharedCredentials (link_of env i user)
    :: (if database_type env =? "postgresdb" then [Query (setval_sql env)] else []).

Definition import_statements (env : Env) (user : User) (credential : json)
  : list statement :=
  match record_id credential with
  | Some i => store_statements env user i (prepared env credential)
  | None => []
  end.

(** The rows and the ownership links an import of [credentials] for
    [user] writes, record by record. *)
Definition rows_of (env : Env) (credentials : list json) : list (string * json) :=
  flat_map (fun c => match record_id c with
                     | Some i => [(i, prepared env c)]
                     | None => []
                     end) credentials.

Definition new_links (env : Env) (user : User) (credentials : list json)
  : list SharedCredentials :=
  map (fun i => link_of env i user) (ids_of credentials).

Definition links_of (stmts : list statement) : list SharedCredentials :=
  flat_map (fun s => match s with
                     | UpsertSharedCredentials l => [l]
                     | _ => []
                     end) stmts.

Definition link_key (l : SharedCredentials) : string * string :=
  (credentialsId l, userId l).

(** Every ownership link a statement writes belongs to [user], as
    credential owner. *)
Definition owned_by (env : Env) (user : User) (s : statement) : Prop :=
  match s with
  | UpsertSharedCredentials l =>
      userId l = id user /\ role l = CREDENTIAL_OWNER env
  | _ => True
  end.

(** A computation inside a transaction is regular when its result and
    the statements it sends depend on nothing but the number of
    statements sent before it, and the tables it leaves are those
    statements replayed. *)
Definition Regular (env : Env) (user : User) {A : Type} (m : tx A) : Prop :=
  forall n : nat, exists (r : result A) (new : list statement),
    Forall (owned_by env user) new /\
    forall st, List.length (executed st) = n ->
      m st = (r, {| tdb := replay env new (tdb st);
                    executed := (executed st ++ new)%list |}).

(** A single-file invocation whose file holds the array [records]. *)
Definition single_file (env : Env) (flags : Flags) (records : list json) : Prop :=
  truthy (input flags) = true /\ separate flags = false /\
  exists content,
    readFileSync env (flag_value (input flags)) = Ok content /\
    jsonParse env content = Ok (JArr records).

(** [file] holds the one record [credential]. *)
Definition holds (env : Env) (file : string) (credential : json) : Prop :=
  exists content,
    readFileSync env file = Ok content /\ jsonParse env content = Ok credential.

(** A directory invocation whose directory holds, in the order the glob
    lists them, one file per record of [records]. *)
Definition directory_of (env : Env) (flags : Flags) (records : list json) : Prop :=
  truthy (input flags) = true /\ separate flags = true /\
  fs env (flag_value (input flags)) = Some Directory /\
  Forall2 (holds env) (glob_json env (inputPath env flags)) records.

Definition is_upsert (e : event) : bool :=
  match e with
  | Statement (UpsertCredentials _) | Statement (UpsertSharedCredentials _) => true
  | _ => false
  end.

(** The specification's reading of the sequence repair: it is performed,
    and once it has been no record is stored any more. *)
Fixpoint repaired_after_loop (tr : list event) : bool :=
  match tr with
  | [] => false
  | Statement (Query _) :: rest => negb (existsb is_upsert rest)
  | _ :: rest => repaired_after_loop rest
  end.

(** The directory check of [run] lets the invocation through. *)
Definition passes_input_checks (env : Env) (flags : Flags) : Prop :=
  truthy (input flags) = true /\
  separate flags && existsSync env (flag_value (input flags))
    && negb (isDirectory env (flag_value (input flags))) = false.

(** ** Vocabulary of the further properties *)

(** An invocation that reaches its loop with the batch [records]: it
    passes the input checks and either its file parses to the array
    [records], or its glob lists files that hold them. *)
Definition batch_of (env : Env) (flags : Flags) (records : list json) : Prop :=
  passes_input_checks env flags /\
  ((separate flags = false /\
    exists content,
      readFileSync env (flag_value (input flags)) = Ok content /\
      jsonParse env content = Ok (JArr records))
   \/ (separate flags = true /\
       Forall2 (holds env) (glob_json env (inputPath env flags)) records)).

Definition is_prefix {A : Type} (l1 l2 : list A) : Prop :=
  exists rest, l2 = (l1 ++ rest)%list.

(** The statements between the start and the end of a transaction. *)
Definition statements_of (tr : list event) : list statement :=
  flat_map (fun e => match e with Statement s => [s] | _ => [] end) tr.

(** [typeof row.data] for a row handed to the database. *)
Definition payload_type (row : json) : string :=
  match get row "data" with
  | Ok v => typeof v
  | Throw _ => "undefined"
  end.

Definition is_query (s : statement) : bool :=
  match s with Query _ => true | _ => false end.

(** Every ownership link refers to a stored credential. *)
Definition links_resolve (db : Db) : Prop :=
  forall l, In l (shared_credentials db) ->
            In (credentialsId l) (map fst (credentials_entity db)).

(** The count line of [reportSuccess] for a number. *)
Definition success_line (n : nat) : logline :=
  Info ("Successfully imported " ++ decimal (Z.of_nat n) ++ " "
          ++ (if Nat.eqb n 1 then "credential." else "credentials.")).

(** A record the database cannot file: the null element, on which
    reading [data] throws, and an object that has no [id] at all, which
    is refused since identifiers are not generated. *)
Definition unidentified (credential : json) : Prop :=
  credential = JNull \/
  exists fields, credential = JObj fields /\ assoc "id" fields = None.

Definition usage_hint : logline :=
  Info "An input file or directory with --input must be provided".

Definition directory_hint : logline :=
  Info "The argument to --input must be a directory".

(* ------------------------------------------------------------------ *)
(** ** A concrete installation

    The scenario of the specification: one global owner [u1], a file
    holding the record [c1] with a plaintext payload.  File contents are
    written with ['] where the JSON text has a double quote; the parser
    of the scenario knows the texts below and rejects all others. *)

Module Scenario.

Definition c1 : json :=
  JObj [("id", JStr "c1"); ("name", JStr "Test"); ("type", JStr "x");
        ("data", JObj [("token", JStr "secret")])].

Definition c2 : json :=
  JObj [("id", JStr "c2"); ("name", JStr "Other"); ("type", JStr "y");
        ("data", JStr "U2FsdGVkX1")].

Definition c1_text := "{'id':'c1','name':'Test','type':'x','data':{'token':'secret'}}".
Definition c2_text := "{'id':'c2','name':'Other','type':'y','data':'U2FsdGVkX1'}".

Definition parse (s : string) : option json :=
  if s =? "[" ++ c1_text ++ "]" then Some (JArr [c1])
  else if s =? "[" ++ c1_text ++ "," ++ c2_text ++ "]" then Some (JArr [c1; c2])
  else if s =? "[" ++ c1_text ++ "," ++ c1_text ++ "]" then Some (JArr [c1; c1])
  else if s =? c1_text then Some c1
  else if s =? c2_text then Some c2
  else if s =? "[]" then Some (JArr [])
  else if s =? "null" then Some JNull
  else if s =? "{}" then Some (JObj [])
  else None.

Definition files (p : string) : option node :=
  if p =? "file.json" then Some (File ("[" ++ c1_text ++ "]"))
  else if p =? "both.json" then Some (File ("[" ++ c1_text ++ "," ++ c2_text ++ "]"))
  else if p =? "twice.json" then Some (File ("[" ++ c1_text ++ "," ++ c1_text ++ "]"))
  else if p =? "empty.json" then Some (File "[]")
  else if p =? "null.json" then Some (File "null")
  else if p =? "object.json" then Some (File "{}")
  else if p =? "backups/latest" then Some Directory
  else if p =? "/backups/latest/c1.json" then Some (File c1_text)
  else if p =? "/backups/latest/c2.json" then Some (File c2_text)
  else None.

Definition glob (cwd : string) : list string :=
  if cwd =? "backups/latest"
  then ["/backups/latest/c1.json"; "/backups/latest/c2.json"]
  else [].

Definition cipher (data : json) (key : string) : string :=
  "enc(" ++ key ++ ":"
    ++ match data with
       | JObj fields => String.concat "," (map fst fields)
       | other => toString other
       end ++ ")".

(** The number an identifier stands for: its decimal digits, read in
    order ([c9] is 9, [10] is 10), and the order of these numbers. *)
Definition digit_of (c : ascii) : option Z :=
  let n := Z.of_nat (nat_of_ascii c) in
  if (48 <=? n)%Z && (n <=? 57)%Z then Some (n - 48)%Z else None.

Fixpoint number_from (acc : Z) (s : string) : Z :=
  match s with
  | EmptyString => acc
  | String c s' =>
      number_from (match digit_of c with
                   | Some d => (10 * acc + d)%Z
                   | None => acc
                   end) s'
  end.

Definition by_number (a b : string) : bool :=
  (number_from 0 a <=? number_from 0 b)%Z.

Definition u1 : User := {| id := "u1"; user_role := "global:owner" |}.
Definition u2 : User := {| id := "u2"; user_role := "global:member" |}.

Definition installation (dbtype : string) (accounts : list User)
           (fails : nat -> bool) : Env :=
  {| fs := files;
     glob_json := glob;
     platform := "linux";
     JSON_parse := parse;
     encryptionKey := "k";
     encrypt := cipher;
     database_type := dbtype;
     tablePrefix := "";
     users := accounts;
     GLOBAL_OWNER := "global:owner";
     CREDENTIAL_OWNER := "credential:owner";
     UM_FIX_INSTRUCTION := "Please run the user-management reset command.";
     db_fails := fails;
     id_le := by_number;
     JSON_error := fun _ => "Unexpected end of JSON input" |}.

Definition never (n : nat) : bool := false.

Definition sqlite : Env := installation "sqlite" [u2; u1] never.
Definition postgres : Env := installation "postgresdb" [u2; u1] never.

Definition empty_db : Db :=
  {| credentials_entity := [];
     shared_credentials := [];
     credentials_entity_id_seq := None |}.

Definition no_owner : Env := installation "sqlite" [u2] never.

(** A Postgres whose fifth statement fails. *)
Definition flaky : Env := installation "postgresdb" [u2; u1] (Nat.eqb 4).

(** Tables that already hold the credential [c9] of [u2], with a
    sequence that was never set. *)
Definition stale_db : Db :=
  {| credentials_entity :=
       [("c9", JObj [("id", JStr "c9"); ("data", JStr "U2FsdGVkX2")])];
     shared_credentials :=
       [{| credentialsId := "c9"; userId := "u2"; role := "credential:owner" |}];
     credentials_entity_id_seq := None |}.

Definition no_input : Flags :=
  {| input := None; separate := false; flag_userId := None |}.

Definition import_file (p : string) : Flags :=
  {| input := Some p; separate := false; flag_userId := None |}.

Definition import_directory (p : string) : Flags :=
  {| input := Some p; separate := true; flag_userId := None |}.

(** A database that is down: every statement fails. *)
Definition always (n : nat) : bool := true.

Definition down : Env := installation "postgresdb" [u2; u1] always.

Definition import_as (uid p : string) : Flags :=
  {| input := Some p; separate := false; flag_userId := Some uid |}.

(** A second installation: a backup directory whose second file is
    cut off, a file whose record has no identifier, and a file that
    holds two versions of [c1]. *)
Definition c1_renamed : json :=
  JObj [("id", JStr "c1"); ("name", JStr "Renamed"); ("type", JStr "x");
        ("data", JStr "U2FsdGVkX3")].

Definition anonymous : json :=
  JObj [("name", JStr "Anonymous"); ("type", JStr "x"); ("data", JStr "U2FsdGVkX4")].

(** Two records under the identifiers 9 and 10. *)
Definition n9 : json :=
  JObj [("id", JStr "9"); ("name", JStr "Ninth"); ("type", JStr "x");
        ("data", JStr "U2FsdGVkX5")].

Definition n10 : json :=
  JObj [("id", JStr "10"); ("name", JStr "Tenth"); ("type", JStr "x");
        ("data", JStr "U2FsdGVkX6")].

Definition parse_more (s : string) : option json :=
  if s =? "[n9,n10]" then Some (JArr [n9; n10])
  else if s =? "[c1,c1_renamed,c2]" then Some (JArr [c1; c1_renamed; c2])
  else if s =? "[c1,anonymous]" then Some (JArr [c1; anonymous])
  else parse s.

Definition files_more (p : string) : option node :=
  if p =? "numbered.json" then Some (File "[n9,n10]")
  else if p =? "versions.json" then Some (File "[c1,c1_renamed,c2]")
  else if p =? "anonymous.json" then Some (File "[c1,anonymous]")
  else if p =? "backups/broken" then Some Directory
  else if p =? "/backups/broken/a.json" then Some (File c1_text)
  else if p =? "/backups/broken/b.json" then Some (File "{'id':'c2','na")
  else files p.

Definition glob_more (cwd : string) : list string :=
  if cwd =? "backups/broken"
  then ["/backups/broken/a.json"; "/backups/broken/b.json";
        "/backups/latest/c2.json"]
  else if cwd =? "C:/backups/latest"
  then ["/backups/latest/c1.json"]
  else glob cwd.

Definition second_installation (os dbtype : string) : Env :=
  {| fs := files_more;
     glob_json := glob_more;
     platform := os;
     JSON_parse := parse_more;
     encryptionKey := "k";
     encrypt := cipher;
     database_type := dbtype;
     tablePrefix := "n8n_";
     users := [u2; u1];
     GLOBAL_OWNER := "global:owner";
     CREDENTIAL_OWNER := "credential:owner";
     UM_FIX_INSTRUCTION := "Please run the user-management reset command.";
     db_fails := never;
     id_le := by_number;
     JSON_error := fun _ => "Unexpected end of JSON input" |}.

Definition more : Env := second_installation "linux" "postgresdb".
Definition more_sqlite : Env := second_installation "linux" "sqlite".

End Scenario.

(* ------------------------------------------------------------------ *)
(** ** Association lists and the two upserts *)

Lemma assoc_upsert_same {A : Type} (k : string) (a : A) (l : list (string * A)) :
  assoc k (upsert k a l) = Some a.
Proof.
  induction l as [|[k' a'] l IH]; simpl.
  - now rewrite String.eqb_refl.
  - destruct (k' =? k) eqn:E; simpl.
    + now rewrite String.eqb_refl.
    + now rewrite E.
Qed.

Lemma assoc_upsert_other {A : Type} (k k0 : string) (a : A) (l : list (string * A)) :
  k <> k0 -> assoc k0 (upsert k a l) = assoc k0 l.
Proof.
  intros Hne. induction l as [|[k' a'] l IH]; simpl.
  - destruct (k =? k0) eqn:E; [apply String.eqb_eq in E; contradiction | reflexivity].
  - destruct (k' =? k) eqn:E; simpl.
    + apply String.eqb_eq in E; subst k'.
      destruct (k =? k0) eqn:E0; [apply String.eqb_eq in E0; contradiction | reflexivity].
    + destruct (k' =? k0); [reflexivity | exact IH].
Qed.

Lemma upsert_fresh {A : Type} (k : string) (a : A) (l : list (string * A)) :
  assoc k l = None -> upsert k a l = (l ++ [(k, a)])%list.
Proof.
  induction l as [|[k' a'] l IH]; simpl; intros H; [reflexivity|].
  destruct (k' =? k); [discriminate|]. now rewrite IH.
Qed.

Lemma assoc_app_fresh {A : Type} (k : string) (l1 l2 : list (string * A)) :
  assoc k l1 = None -> assoc k (l1 ++ l2)%list = assoc k l2.
Proof.
  induction l1 as [|[k' a'] l1 IH]; simpl; intros H; [reflexivity|].
  destruct (k' =? k); [discriminate | auto].
Qed.

Lemma upsert_not_nil {A : Type} (k : string) (a : A) (l : list (string * A)) :
  upsert k a l <> [].
Proof.
  destruct l as [|[k' a'] l]; simpl; [discriminate|].
  destruct (k' =? k); discriminate.
Qed.

Lemma same_link_key (a b : SharedCredentials) :
  same_link a b = true <-> link_key a = link_key b.
Proof.
  unfold same_link, link_key. rewrite andb_true_iff, !String.eqb_eq.
  split; [intros [-> ->]; reflexivity | intros H; now inversion H].
Qed.

Lemma same_link_refl (a : SharedCredentials) : same_link a a = true.
Proof. now apply same_link_key. Qed.

Lemma same_link_false (a b : SharedCredentials) :
  same_link a b = false <-> link_key a <> link_key b.
Proof.
  rewrite <- same_link_key. destruct (same_link a b); split; congruence.
Qed.

(** The row found under the key of [l]. *)
Lemma find_upsert_link_same (l : SharedCredentials) (t : list SharedCredentials) :
  find (fun r => same_link r l) (upsert_link l t) = Some l.
Proof.
  induction t as [|r t IH]; simpl.
  - now rewrite same_link_refl.
  - destruct (same_link r l) eqn:E; simpl.
    + now rewrite same_link_refl.
    + now rewrite E.
Qed.

Lemma find_upsert_link_other (l l0 : SharedCredentials) (t : list SharedCredentials) :
  link_key l <> link_key l0 ->
  find (fun r => same_link r l0) (upsert_link l t) = find (fun r => same_link r l0) t.
Proof.
  intros Hne. induction t as [|r t IH]; simpl.
  - apply same_link_false in Hne. now rewrite Hne.
  - destruct (same_link r l) eqn:E; simpl.
    + apply same_link_key in E.
      assert (H1 : same_link l l0 = false) by now apply same_link_false.
      assert (H2 : same_link r l0 = false) by (apply same_link_false; congruence).
      now rewrite H1, H2.
    + destruct (same_link r l0); [reflexivity | exact IH].
Qed.

Lemma upsert_link_present (l : SharedCredentials) (t : list SharedCredentials) :
  find (fun r => same_link r l) t = Some l -> upsert_link l t = t.
Proof.
  induction t as [|r t IH]; simpl; [discriminate|].
  destruct (same_link r l); intros H.
  - now inversion H.
  - now rewrite IH.
Qed.

Lemma upsert_link_fresh (l : SharedCredentials) (t : list SharedCredentials) :
  find (fun r => same_link r l) t = None -> upsert_link l t = (t ++ [l])%list.
Proof.
  induction t as [|r t IH]; simpl; [reflexivity|].
  destruct (same_link r l); [discriminate|]. intros H. now rewrite IH.
Qed.

Lemma upsert_link_keys_present (l : SharedCredentials) (t : list SharedCredentials) :
  In (link_key l) (map link_key t) ->
  map link_key (upsert_link l t) = map link_key t.
Proof.
  induction t as [|r t IH]; simpl; [tauto|].
  destruct (same_link r l) eqn:E; simpl.
  - apply same_link_key in E. now rewrite E.
  - intros [H | H].
    + apply same_link_false in E. congruence.
    + now rewrite IH.
Qed.

Lemma upsert_link_keys_fresh (l : SharedCredentials) (t : list SharedCredentials) :
  ~ In (link_key l) (map link_key t) ->
  map link_key (upsert_link l t) = (map link_key t ++ [link_key l])%list.
Proof.
  induction t as [|r t IH]; simpl; [reflexivity|].
  intros H. destruct (same_link r l) eqn:E.
  - apply same_link_key in E. tauto.
  - simpl. rewrite IH; tauto.
Qed.

Lemma key_eq_dec (a b : string * string) : {a = b} + {a <> b}.
Proof. decide equality; apply string_dec. Defined.

(** An upsert keeps the key pairs of the ownership links distinct. *)
Lemma upsert_link_NoDup (l : SharedCredentials) (t : list SharedCredentials) :
  NoDup (map link_key t) -> NoDup (map link_key (upsert_link l t)).
Proof.
  intros H.
  destruct (in_dec key_eq_dec (link_key l) (map link_key t))
    as [Hin | Hout].
  - now rewrite upsert_link_keys_present.
  - rewrite upsert_link_keys_fresh by assumption.
    apply NoDup_app; [assumption | repeat constructor; simpl; tauto |].
    intros k Hk [<- | []]. contradiction.
Qed.

(* ------------------------------------------------------------------ *)
(** ** Computations inside a transaction *)

Lemma replay_app (env : Env) (s1 s2 : list statement) (db : Db) :
  replay env (s1 ++ s2) db = replay env s2 (replay env s1 db).
Proof. unfold replay. apply fold_left_app. Qed.

Section Regularity.

Variable env : Env.
Variable user : User.

Lemma Regular_ret {A : Type} (a : A) : Regular env user (ret a).
Proof.
  intros n. exists (Ok a), []. split; [constructor|].
  intros st _. unfold ret. simpl. rewrite app_nil_r. now destruct st.
Qed.

Lemma Regular_throw {A : Type} (e : exn) : Regular env user (@throw A e).
Proof.
  intros n. exists (Throw e), []. split; [constructor|].
  intros st _. unfold throw. simpl. rewrite app_nil_r. now destruct st.
Qed.

Lemma Regular_lift {A : Type} (r : result A) : Regular env user (lift r).
Proof. destruct r; [apply Regular_ret | apply Regular_throw]. Qed.

Lemma Regular_bind {A B : Type} (m : tx A) (k : A -> tx B) :
  Regular env user m -> (forall a, Regular env user (k a)) ->
  Regular env user (bind m k).
Proof.
  intros Hm Hk n. destruct (Hm n) as (r & new & Hown & Hrun).
  destruct r as [a | e].
  - destruct (Hk a (n + List.length new)) as (r2 & new2 & Hown2 & Hrun2).
    exists r2, (new ++ new2)%list. split; [now apply Forall_app|].
    intros st Hn. unfold bind. rewrite (Hrun st Hn).
    rewrite Hrun2 by (simpl; rewrite length_app; lia).
    simpl. now rewrite replay_app, app_assoc.
  - exists (Throw e), new. split; [assumption|].
    intros st Hn. unfold bind. now rewrite (Hrun st Hn).
Qed.

Lemma Regular_execute (s : statement) (eff : Db -> Db) :
  (forall db, eff db = effect env s db) -> owned_by env user s ->
  Regular env user (execute env s eff).
Proof.
  intros Heff Hown n. destruct (db_fails env n) eqn:F.
  - exists (Throw (QueryFailedError "statement failed")), [].
    split; [constructor|]. intros st Hn. unfold execute. rewrite Hn, F.
    simpl. rewrite app_nil_r. now destruct st.
  - exists (Ok tt), [s]. split; [repeat constructor; assumption|].
    intros st Hn. unfold execute. rewrite Hn, F. simpl. now rewrite Heff.
Qed.

Lemma Regular_storeCredential (credential : json) :
  Regular env user (storeCredential env credential user).
Proof.
  unfold storeCredential. apply Regular_bind.
  - unfold upsertCredentialsEntity.
    destruct credential as [| | | | |fields]; try apply Regular_throw.
    destruct (assoc "id" fields) as [[| | |i| |]|] eqn:E; try apply Regular_throw.
    apply Regular_bind; [|intros; apply Regular_ret].
    apply Regular_execute; [|exact I].
    intros db. simpl. now rewrite E.
  - intros i. apply Regular_bind.
    + apply Regular_execute; [reflexivity | now split].
    + intros _. destruct (database_type env =? "postgresdb").
      * apply Regular_execute; [reflexivity | exact I].
      * apply Regular_ret.
Qed.

Lemma Regular_importCredential (credential : json) :
  Regular env user (importCredential env user credential).
Proof.
  unfold importCredential. apply Regular_bind; [apply Regular_lift|].
  intros data. apply Regular_storeCredential.
Qed.

Lemma Regular_for_credentials (credentials : list json) :
  Regular env user (for_credentials env user credentials).
Proof.
  induction credentials as [|c rest IH]; simpl.
  - apply Regular_ret.
  - apply Regular_bind; [apply Regular_importCredential | intros _; exact IH].
Qed.

Lemma Regular_for_files (files : list string) :
  Regular env user (for_files env user files).
Proof.
  induction files as [|f rest IH]; simpl.
  - apply Regular_ret.
  - apply Regular_bind; [apply Regular_lift | intros content].
    apply Regular_bind; [apply Regular_lift | intros credential].
    apply Regular_bind; [apply Regular_importCredential | intros _; exact IH].
Qed.

(** A transaction over a regular body: whether it commits, and what it
    sends, does not depend on the tables it starts from; committed
    tables are the statements replayed, a rollback restores them. *)
Lemma transaction_regular (body : tx unit) :
  Regular env user body ->
  exists stmts, Forall (owned_by env user) stmts /\
    ((forall db, transaction body db
                 = (Ok tt, replay env stmts db,
                    START_TRANSACTION :: map Statement stmts ++ [COMMIT]))
     \/ exists e, forall db, transaction body db
                 = (Throw e, rolled_back db (replay env stmts db),
                    START_TRANSACTION :: map Statement stmts ++ [ROLLBACK])).
Proof.
  intros H. destruct (H 0) as (r & new & Hown & Hrun).
  exists new. split; [assumption|]. destruct r as [[] | e]; [left | right; exists e];
    intros db; unfold transaction; now rewrite Hrun.
Qed.

End Regularity.

(* ------------------------------------------------------------------ *)
(** ** The three ways an invocation ends *)

(** An invocation that ends before it opens a transaction. *)
Ltac early := left; do 2 eexists; intros; reflexivity.

Lemma run_outcomes (env : Env) (flags : Flags) :
  (exists th lg, forall db,
      run env flags db
      = {| thrown := th; logged := lg; storage := db; trace := [] |})
  \/ (exists user stmts lg, Forall (owned_by env user) stmts /\ forall db,
      run env flags db
      = {| thrown := None; logged := lg; storage := replay env stmts db;
           trace := START_TRANSACTION :: map Statement stmts ++ [COMMIT] |})
  \/ (exists stmts e, forall db,
      run env flags db
      = {| thrown := Some e; logged := [];
           storage := rolled_back db (replay env stmts db);
           trace := START_TRANSACTION :: map Statement stmts ++ [ROLLBACK] |}).
Proof.
  unfold run.
  destruct (negb (truthy (input flags))); [early|].
  destruct (separate flags && existsSync env (flag_value (input flags))
            && negb (isDirectory env (flag_value (input flags)))); [early|].
  destruct (assignee env flags) as [user | e]; [|early].
  destruct (separate flags).
  - destruct (transaction_regular env user _
                (Regular_for_files env user (glob_json env (inputPath env flags))))
      as (stmts & Hown & [Hc | [e Hr]]).
    + right; left. exists user, stmts. eexists. split; [assumption|].
      intros db. rewrite Hc. reflexivity.
    + right; right. exists stmts, e. intros db. rewrite Hr. reflexivity.
  - destruct (readFileSync env (flag_value (input flags))) as [content | e];
      [|early].
    destruct (jsonParse env content) as [credentials | e];
      [|early].
    destruct (get credentials "length") as [total | e];
      [|early].
    destruct (negb (isArray credentials)); [early|].
    destruct (transaction_regular env user _
                (Regular_for_credentials env user (elements credentials)))
      as (stmts & Hown & [Hc | [e Hr]]).
    + right; left. exists user, stmts. eexists. split; [assumption|].
      intros db. rewrite Hc. reflexivity.
    + right; right. exists stmts, e. intros db. rewrite Hr. reflexivity.
Qed.

(** ** Replaying statements, table by table *)

Lemma shared_setval (m : option string) (db : Db) :
  shared_credentials (setval m db) = shared_credentials db.
Proof. now destruct m. Qed.

Lemma credentials_setval (m : option string) (db : Db) :
  credentials_entity (setval m db) = credentials_entity db.
Proof. now destruct m. Qed.

Lemma shared_replay (env : Env) (stmts : list statement) (db : Db) :
  shared_credentials (replay env stmts db)
  = fold_left (fun t l => upsert_link l t) (links_of stmts) (shared_credentials db).
Proof.
  revert db. induction stmts as [|s stmts IH]; intros db; [reflexivity|].
  change (replay env (s :: stmts) db) with (replay env stmts (effect env s db)).
  rewrite IH. destruct s as [row | l | sql]; simpl.
  - now destruct (record_id row).
  - reflexivity.
  - now rewrite shared_setval.
Qed.

Lemma owned_links (env : Env) (user : User) (stmts : list statement) :
  Forall (owned_by env user) stmts ->
  Forall (fun l => userId l = id user /\ role l = CREDENTIAL_OWNER env)
         (links_of stmts).
Proof.
  induction 1 as [|s stmts Hs _ IH]; [constructor|].
  destruct s; simpl; try assumption. now constructor.
Qed.

(** Upserting links that are all found already changes nothing. *)
Lemma upsert_links_present (ls t : list SharedCredentials) :
  Forall (fun l => find (fun r => same_link r l) t = Some l) ls ->
  fold_left (fun t l => upsert_link l t) ls t = t.
Proof.
  induction 1 as [|l ls Hl _ IH]; simpl; [reflexivity|].
  now rewrite (upsert_link_present _ _ Hl).
Qed.

(** After upserting links whose rows are determined by their keys, each
    of them is the row found under its key. *)
Lemma upsert_links_found (ls : list SharedCredentials) :
  (forall a b, In a ls -> In b ls -> link_key a = link_key b -> a = b) ->
  forall (done t : list SharedCredentials),
    (forall a b, In a done -> In b ls -> link_key a = link_key b -> a = b) ->
    Forall (fun l => find (fun r => same_link r l) t = Some l) done ->
    Forall (fun l => find (fun r => same_link r l)
                          (fold_left (fun t l => upsert_link l t) ls t) = Some l)
           (done ++ ls)%list.
Proof.
  induction ls as [|l ls IH]; intros Hfun done t Hcross Hdone; simpl.
  - now rewrite app_nil_r.
  - replace (done ++ l :: ls)%list with ((done ++ [l]) ++ ls)%list
      by (now rewrite <- app_assoc).
    apply IH.
    + intros a b Ha Hb. apply Hfun; now right.
    + intros a b Ha Hb Hk. apply in_app_or in Ha as [Ha | [<- | []]].
      * apply Hcross; [assumption | now right | assumption].
      * apply Hfun; [now left | now right | assumption].
    + apply Forall_app. split.
      * rewrite Forall_forall in Hdone |- *. intros a Ha.
        destruct (key_eq_dec (link_key l) (link_key a)) as [Heq | Hne].
        -- assert (a = l) by (apply Hcross; [assumption | now left | congruence]).
           subst a. apply find_upsert_link_same.
        -- rewrite find_upsert_link_other by assumption. now apply Hdone.
      * repeat constructor. apply find_upsert_link_same.
Qed.

Lemma upsert_links_idempotent (ls t : list SharedCredentials) :
  (forall a b, In a ls -> In b ls -> link_key a = link_key b -> a = b) ->
  let t1 := fold_left (fun t l => upsert_link l t) ls t in
  fold_left (fun t l => upsert_link l t) ls t1 = t1.
Proof.
  intros Hfun t1. apply upsert_links_present.
  apply (upsert_links_found ls Hfun [] t); [intros a b [] | constructor].
Qed.

Lemma upsert_links_NoDup (ls t : list SharedCredentials) :
  NoDup (map link_key t) ->
  NoDup (map link_key (fold_left (fun t l => upsert_link l t) ls t)).
Proof.
  revert t. induction ls as [|l ls IH]; intros t H; simpl; [assumption|].
  apply IH. now apply upsert_link_NoDup.
Qed.

(* ------------------------------------------------------------------ *)
(** ** What a loop that returns has done *)

Lemma record_id_prepared (env : Env) (credential : json) :
  record_id (prepared env credential) = record_id credential.
Proof.
  destruct credential as [| | |s|items|fields]; try reflexivity.
  unfold prepared. simpl get.
  destruct (assoc "data" fields) as [d|]; [|reflexivity].
  destruct (typeof (Some d) =? "object"); [|reflexivity].
  unfold setData, set, record_id.
  rewrite assoc_upsert_other; [reflexivity | discriminate].
Qed.

Lemma importCredential_prepared (env : Env) (user : User) (credential : json)
      (data : value) (st : TxState) :
  get credential "data" = Ok data ->
  importCredential env user credential st
  = storeCredential env (prepared env credential) user st.
Proof.
  intros H. unfold importCredential, prepared, bind at 1. rewrite H. simpl.
  now destruct data as [d|].
Qed.

Section Loops.

Variable env : Env.
Variable user : User.

Lemma execute_ok (s : statement) (eff : Db -> Db) (st st' : TxState) (u : unit) :
  execute env s eff st = (Ok u, st') ->
  st' = {| tdb := eff (tdb st); executed := (executed st ++ [s])%list |}.
Proof.
  unfold execute. destruct (db_fails env _); intros H; now inversion H.
Qed.

Lemma storeCredential_ok (credential : json) (st st' : TxState) :
  storeCredential env credential user st = (Ok tt, st') ->
  exists i, record_id credential = Some i /\
    executed st' = (executed st ++ store_statements env user i credential)%list /\
    tdb st' = replay env (store_statements env user i credential) (tdb st).
Proof.
  unfold storeCredential, upsertCredentialsEntity, upsertSharedCredentials,
    query_setval, store_statements.
  destruct credential as [| | | | |fields]; try (unfold bind, throw; discriminate).
  unfold record_id.
  destruct (assoc "id" fields) as [[| | |i| |]|] eqn:E;
    try (unfold bind, throw; discriminate).
  unfold bind, ret.
  destruct (execute env (UpsertCredentials _) _ st) as [[[]|e] st1] eqn:E1;
    [|discriminate].
  apply execute_ok in E1.
  destruct (execute env (UpsertSharedCredentials _) _ st1) as [[[]|e] st2] eqn:E2;
    [|discriminate].
  apply execute_ok in E2.
  destruct (database_type env =? "postgresdb").
  - intros H3. apply execute_ok in H3. subst. exists i. simpl.
    unfold record_id. rewrite E, <- !app_assoc. auto.
  - intros H3. inversion H3; subst. exists i. simpl.
    unfold record_id. rewrite E, <- !app_assoc. auto.
Qed.

Lemma importCredential_ok (credential : json) (st st' : TxState) :
  importCredential env user credential st = (Ok tt, st') ->
  record_id credential <> None /\
  executed st' = (executed st ++ import_statements env user credential)%list /\
  tdb st' = replay env (import_statements env user credential) (tdb st).
Proof.
  intros H. destruct (get credential "data") as [data | e] eqn:G.
  - rewrite (importCredential_prepared _ _ _ _ _ G) in H.
    apply storeCredential_ok in H as (i & Hi & Hex & Hdb).
    rewrite record_id_prepared in Hi. unfold import_statements.
    rewrite Hi. repeat split; [discriminate | assumption | assumption].
  - unfold importCredential, bind in H. rewrite G in H. discriminate.
Qed.

Lemma for_credentials_ok (credentials : list json) (st st' : TxState) :
  for_credentials env user credentials st = (Ok tt, st') ->
  Forall (fun c => record_id c <> None) credentials /\
  executed st'
  = (executed st ++ flat_map (import_statements env user) credentials)%list /\
  tdb st' = replay env (flat_map (import_statements env user) credentials) (tdb st).
Proof.
  revert st. induction credentials as [|c rest IH]; intros st; simpl.
  - unfold ret. intros H. inversion H; subst.
    now rewrite app_nil_r.
  - unfold bind at 1.
    destruct (importCredential env user c st) as [[[]|e] st1] eqn:E1;
      [|discriminate].
    intros H. apply importCredential_ok in E1 as (Hid & Hex & Hdb).
    apply IH in H as (Hids & Hex' & Hdb').
    rewrite Hex', Hdb', Hex, Hdb, replay_app, app_assoc. auto.
Qed.

(** A directory whose files hold [records] is imported exactly as the
    array of those records is. *)
Lemma for_files_for_credentials (files : list string) (records : list json) :
  Forall2 (holds env) files records ->
  forall st, for_files env user files st = for_credentials env user records st.
Proof.
  induction 1 as [|f c files records (content & Hread & Hparse) _ IH];
    intros st; simpl; [reflexivity|].
  rewrite Hread. simpl. unfold bind at 1. unfold ret at 1.
  rewrite Hparse. simpl. unfold bind at 1. unfold ret at 1.
  unfold bind. destruct (importCredential env user c st) as [[[]|e] st1];
    [apply IH | reflexivity].
Qed.

End Loops.

(* ------------------------------------------------------------------ *)
(** ** The two modes of [run] *)

Lemma run_single_file (env : Env) (flags : Flags) (records : list json)
      (user : User) (db : Db) :
  single_file env flags records -> assignee env flags = Ok user ->
  run env flags db
  = match transaction (for_credentials env user records) db with
    | (Throw e, db', tr) => threw e db' tr
    | (Ok _, db', tr) =>
        returned [reportSuccess (Some (JNum (Z.of_nat (List.length records))))] db' tr
    end.
Proof.
  intros (Hin & Hsep & content & Hread & Hparse) Huser.
  unfold run. rewrite Hin, Hsep, Huser, Hread, Hparse. reflexivity.
Qed.

Lemma run_directory (env : Env) (flags : Flags) (records : list json)
      (user : User) (db : Db) :
  directory_of env flags records -> assignee env flags = Ok user ->
  run env flags db
  = match transaction (for_credentials env user records) db with
    | (Throw e, db', tr) => threw e db' tr
    | (Ok _, db', tr) =>
        returned [reportSuccess (Some (JNum (Z.of_nat (List.length records))))] db' tr
    end.
Proof.
  intros (Hin & Hsep & Hdir & Hfiles) Huser.
  unfold run, existsSync, isDirectory. rewrite Hin, Hsep, Hdir, Huser. simpl.
  rewrite (Forall2_length Hfiles). unfold transaction.
  now rewrite (for_files_for_credentials env user _ _ Hfiles).
Qed.

(** A batch that returns has sent, record by record, the statements of
    [import_statements], all of them committed. *)
Lemma committed_batch (env : Env) (records : list json) (user : User) (db : Db) :
  let o := match transaction (for_credentials env user records) db with
           | (Throw e, db', tr) => threw e db' tr
           | (Ok _, db', tr) =>
               returned [reportSuccess (Some (JNum (Z.of_nat (List.length records))))]
                        db' tr
           end in
  thrown o = None ->
  Forall (fun c => record_id c <> None) records /\
  o = returned [reportSuccess (Some (JNum (Z.of_nat (List.length records))))]
        (replay env (flat_map (import_statements env user) records) db)
        (START_TRANSACTION
           :: map Statement (flat_map (import_statements env user) records)
           ++ [COMMIT]).
Proof.
  cbv zeta. unfold transaction.
  destruct (for_credentials env user records _) as [[[]|e] st'] eqn:E;
    [|discriminate].
  intros _. apply for_credentials_ok in E as (Hids & Hex & Hdb).
  simpl in Hex, Hdb. now rewrite Hex, Hdb.
Qed.

Lemma run_returns (env : Env) (flags : Flags) (records : list json)
      (user : User) (db : Db) :
  single_file env flags records \/ directory_of env flags records ->
  assignee env flags = Ok user ->
  thrown (run env flags db) = None ->
  Forall (fun c => record_id c <> None) records /\
  run env flags db
  = returned [reportSuccess (Some (JNum (Z.of_nat (List.length records))))]
      (replay env (flat_map (import_statements env user) records) db)
      (START_TRANSACTION
         :: map Statement (flat_map (import_statements env user) records)
         ++ [COMMIT]).
Proof.
  intros [Hfile | Hdir] Huser.
  - rewrite (run_single_file _ _ _ _ _ Hfile Huser). apply committed_batch.
  - rewrite (run_directory _ _ _ _ _ Hdir Huser). apply committed_batch.
Qed.

(* ------------------------------------------------------------------ *)
(** ** The tables after a committed batch *)

Lemma credentials_replay_import (env : Env) (user : User) (records : list json)
      (db : Db) :
  credentials_entity (replay env (flat_map (import_statements env user) records) db)
  = fold_left (fun t p => upsert (fst p) (snd p) t) (rows_of env records)
              (credentials_entity db).
Proof.
  revert db. induction records as [|c rest IH]; intros db; [reflexivity|].
  simpl flat_map. rewrite replay_app, IH. unfold rows_of. simpl flat_map.
  rewrite fold_left_app. f_equal.
  unfold import_statements. destruct (record_id c) as [i|] eqn:E; [|reflexivity].
  unfold store_statements. simpl. rewrite record_id_prepared, E.
  destruct (database_type env =? "postgresdb"); simpl;
    [now rewrite credentials_setval | reflexivity].
Qed.

Lemma links_of_import (env : Env) (user : User) (records : list json) :
  links_of (flat_map (import_statements env user) records)
  = new_links env user records.
Proof.
  unfold links_of, new_links, ids_of.
  induction records as [|c rest IH]; [reflexivity|].
  simpl. rewrite flat_map_app, map_app, IH. f_equal.
  unfold import_statements. destruct (record_id c) as [i|]; [|reflexivity].
  unfold store_statements. simpl.
  now destruct (database_type env =? "postgresdb").
Qed.

Lemma upserts_fresh {A : Type} (rows t : list (string * A)) :
  NoDup (map fst rows) ->
  (forall k, In k (map fst rows) -> assoc k t = None) ->
  fold_left (fun t p => upsert (fst p) (snd p) t) rows t = (t ++ rows)%list.
Proof.
  revert t. induction rows as [|[k a] rows IH]; intros t Hnd Hfresh; simpl.
  - now rewrite app_nil_r.
  - inversion Hnd as [|? ? Hk Hnd']; subst.
    rewrite upsert_fresh by (apply Hfresh; now left).
    rewrite IH; [now rewrite <- app_assoc | assumption |].
    intros k' Hk'. rewrite assoc_app_fresh by (apply Hfresh; now right).
    simpl. destruct (k =? k') eqn:E; [|reflexivity].
    apply String.eqb_eq in E. subst k'. contradiction.
Qed.

Lemma find_link_absent (l : SharedCredentials) (t : list SharedCredentials) :
  ~ In (link_key l) (map link_key t) -> find (fun r => same_link r l) t = None.
Proof.
  induction t as [|r t IH]; simpl; [reflexivity|]. intros H.
  destruct (same_link r l) eqn:E.
  - apply same_link_key in E. tauto.
  - apply IH. tauto.
Qed.

Lemma upsert_links_fresh (ls t : list SharedCredentials) :
  NoDup (map link_key ls) ->
  (forall l, In l ls -> ~ In (link_key l) (map link_key t)) ->
  fold_left (fun t l => upsert_link l t) ls t = (t ++ ls)%list.
Proof.
  revert t. induction ls as [|l ls IH]; intros t Hnd Hfresh; simpl.
  - now rewrite app_nil_r.
  - inversion Hnd as [|? ? Hk Hnd']; subst.
    rewrite upsert_link_fresh
      by (apply find_link_absent, Hfresh; now left).
    rewrite IH; [now rewrite <- app_assoc | assumption |].
    intros l' Hl'. rewrite map_app, in_app_iff. simpl.
    intros [H | [H | []]].
    + apply (Hfresh l'); [now right | assumption].
    + apply Hk. rewrite H. now apply in_map.
Qed.

Lemma ids_of_rows (env : Env) (records : list json) :
  map fst (rows_of env records) = ids_of records.
Proof.
  unfold rows_of, ids_of. induction records as [|c rest IH]; [reflexivity|].
  simpl. rewrite map_app, IH. now destruct (record_id c).
Qed.

Lemma ids_of_length (records : list json) :
  Forall (fun c => record_id c <> None) records ->
  List.length (ids_of records) = List.length records.
Proof.
  unfold ids_of. induction 1 as [|c rest Hc _ IH]; [reflexivity|].
  simpl. rewrite length_app, IH.
  destruct (record_id c); [reflexivity | contradiction].
Qed.

Lemma new_links_keys (env : Env) (user : User) (records : list json) :
  map link_key (new_links env user records)
  = map (fun i => (i, id user)) (ids_of records).
Proof. unfold new_links. now rewrite map_map. Qed.

Lemma NoDup_pair_right (u : string) (ids : list string) :
  NoDup ids -> NoDup (map (fun i => (i, u)) ids).
Proof.
  induction 1 as [|i ids Hi _ IH]; simpl; constructor; [|assumption].
  rewrite in_map_iff. intros (j & Hj & Hin). inversion Hj; subst. contradiction.
Qed.

Lemma max_id_some (le : string -> string -> bool) (i : string)
      (ids : list string) :
  exists m, max_id le (i :: ids) = Some m.
Proof.
  unfold max_id. simpl. generalize i. clear i.
  induction ids as [|j ids IH]; intros i; simpl; eauto.
Qed.

(** [MAX] is a maximum: in a total, transitive order it is one of the
    identifiers and every identifier is below it. *)
Lemma max_id_greatest (le : string -> string -> bool) (ids : list string)
      (m : string) :
  (forall a b, le a b = true \/ le b a = true) ->
  (forall a b c, le a b = true -> le b c = true -> le a c = true) ->
  max_id le ids = Some m ->
  In m ids /\ forall i, In i ids -> le i m = true.
Proof.
  intros Htotal Htrans. unfold max_id.
  assert (Hgen : forall ids acc m,
             fold_left (fun acc i =>
                          match acc with
                          | None => Some i
                          | Some m => Some (if le m i then i else m)
                          end) ids acc = Some m ->
             (acc = Some m \/ In m ids) /\
             (forall i, In i ids -> le i m = true) /\
             (forall a, acc = Some a -> le a m = true)).
  { clear ids m. induction ids as [|j ids IH]; intros acc m H; simpl in H.
    - subst acc. repeat split; [now left | intros i [] |].
      intros a Ha. injection Ha as <-. destruct (Htotal m m); assumption.
    - destruct acc as [a|].
      + destruct (le a j) eqn:E; apply IH in H as (Hin & Hall & Hacc).
        * assert (Hj : le j m = true) by now apply Hacc.
          split; [|split].
          -- right. destruct Hin as [Hin | Hin]; [left | now right].
             now inversion Hin.
          -- intros i [<- | Hi]; [exact Hj | now apply Hall].
          -- intros x Hx. injection Hx as <-. now apply (Htrans a j m).
        * assert (Ha : le a m = true) by now apply Hacc.
          split; [|split].
          -- destruct Hin as [Hin | Hin]; [now left | right; now right].
          -- intros i [<- | Hi]; [|now apply Hall].
             apply (Htrans j a m); [|exact Ha].
             destruct (Htotal a j); congruence.
          -- intros x Hx. injection Hx as <-. exact Ha.
      + apply IH in H as (Hin & Hall & Hacc).
        assert (Hj : le j m = true) by now apply Hacc.
        split; [|split].
        * right. destruct Hin as [Hin | Hin]; [left | now right].
          now inversion Hin.
        * intros i [<- | Hi]; [exact Hj | now apply Hall].
        * discriminate. }
  intros H. apply Hgen in H as ([H | H] & Hall & _); [discriminate|]. now split.
Qed.

(** On Postgres the last statement of a non-empty committed batch is the
    repair, so the sequence holds the largest stored identifier. *)
Lemma sequence_after_batch (env : Env) (user : User) (records : list json)
      (db : Db) :
  database_type env = "postgresdb" ->
  Forall (fun c => record_id c <> None) records -> records <> [] ->
  let after := replay env (flat_map (import_statements env user) records) db in
  credentials_entity_id_seq after
  = max_id (id_le env) (map fst (credentials_entity after)).
Proof.
  intros Hpg Hids Hne.
  destruct (exists_last Hne) as (front & c & ->).
  apply Forall_app in Hids as [_ Hc]. inversion Hc as [|? ? Hid _]; subst.
  rewrite flat_map_app. simpl flat_map. rewrite app_nil_r.
  cbv zeta. rewrite replay_app.
  set (before := replay env _ db). unfold import_statements.
  destruct (record_id c) as [i|] eqn:E; [|contradiction].
  unfold store_statements. rewrite Hpg. simpl.
  rewrite record_id_prepared, E.
  rewrite credentials_setval.
  change (credentials_entity (put_link (link_of env i user)
                                (put_credential i (prepared env c) before)))
    with (upsert i (prepared env c) (credentials_entity before)).
  change (credentials_entity (put_credential i (prepared env c) before))
    with (upsert i (prepared env c) (credentials_entity before)).
  destruct (upsert i (prepared env c) (credentials_entity before))
    as [|[k row] t'] eqn:Et; [now apply upsert_not_nil in Et|].
  simpl map. destruct (max_id_some (id_le env) k (map fst t')) as [m Hm].
  now rewrite Hm.
Qed.

(* ------------------------------------------------------------------ *)
(** ** Invocations that end before the transaction *)

Lemma run_unresolved (env : Env) (flags : Flags) (db : Db) (e : exn) :
  passes_input_checks env flags -> assignee env flags = Throw e ->
  run env flags db = threw e db [].
Proof.
  intros [Hin Hdir] Hu. unfold run. now rewrite Hin, Hdir, Hu.
Qed.

Lemma single_file_passes (env : Env) (flags : Flags) (records : list json) :
  single_file env flags records -> passes_input_checks env flags.
Proof. intros (Hin & Hsep & _). split; [assumption | now rewrite Hsep]. Qed.

Lemma directory_passes (env : Env) (flags : Flags) (records : list json) :
  directory_of env flags records -> passes_input_checks env flags.
Proof.
  intros (Hin & Hsep & Hdir & _). split; [assumption|].
  unfold isDirectory. rewrite Hdir. apply andb_false_r.
Qed.

Lemma getAssignee_unknown (env : Env) (uid : string) :
  (forall u, In u (users env) -> id u <> uid) ->
  getAssignee env uid = Throw (Error ("Failed to find user with ID " ++ uid)).
Proof.
  intros H. unfold getAssignee, findOneBy.
  destruct (find _ (users env)) as [u|] eqn:F; [|reflexivity].
  apply find_some in F as [Hin Hid]. apply String.eqb_eq in Hid.
  now apply H in Hin.
Qed.

Lemma getOwner_missing (env : Env) :
  (forall u, In u (users env) -> user_role u <> GLOBAL_OWNER env) ->
  getOwner env = Throw (Error ("Failed to find owner. " ++ UM_FIX_INSTRUCTION env)).
Proof.
  intros H. unfold getOwner, findOneBy.
  destruct (find _ (users env)) as [u|] eqn:F; [|reflexivity].
  apply find_some in F as [Hin Hr]. apply String.eqb_eq in Hr.
  now apply H in Hin.
Qed.

(** In single-file mode a parsed value other than [null] that is not an
    array is turned down with the descriptive error. *)
Lemma not_an_array_rejected (env : Env) (flags : Flags) (db : Db)
      (user : User) (content : string) (v : json) :
  truthy (input flags) = true -> separate flags = false ->
  assignee env flags = Ok user ->
  readFileSync env (flag_value (input flags)) = Ok content ->
  jsonParse env content = Ok v ->
  v <> JNull -> isArray v = false ->
  run env flags db = threw not_an_array db [].
Proof.
  intros Hin Hsep Hu Hread Hparse Hnull Harr.
  unfold run. rewrite Hin, Hsep, Hu, Hread, Hparse. simpl.
  destruct v; try contradiction; try discriminate; reflexivity.
Qed.

(* ------------------------------------------------------------------ *)
(** ** A database without faults *)

Section NoFaults.

Variable env : Env.
Variable user : User.
Hypothesis sound : forall n, db_fails env n = false.

Lemma execute_returns (s : statement) (eff : Db -> Db) (st : TxState) :
  execute env s eff st
  = (Ok tt, {| tdb := eff (tdb st); executed := (executed st ++ [s])%list |}).
Proof. unfold execute. now rewrite sound. Qed.

Lemma storeCredential_returns (credential : json) (i : string) (st : TxState) :
  record_id credential = Some i ->
  storeCredential env credential user st
  = (Ok tt,
     {| tdb := replay env (store_statements env user i credential) (tdb st);
        executed := (executed st ++ store_statements env user i credential)%list |}).
Proof.
  intros Hid. unfold storeCredential, upsertCredentialsEntity,
    upsertSharedCredentials, query_setval, store_statements.
  unfold record_id in Hid.
  destruct credential as [| | | | |fields]; try discriminate.
  destruct (assoc "id" fields) as [[| | |j| |]|] eqn:E; try discriminate.
  inversion Hid; subst j.
  unfold bind, ret. rewrite !execute_returns.
  destruct (database_type env =? "postgresdb").
  - rewrite execute_returns. simpl. unfold record_id.
    now rewrite E, <- !app_assoc.
  - simpl. unfold record_id. now rewrite E, <- !app_assoc.
Qed.

Lemma importCredential_returns (credential : json) (i : string) (st : TxState) :
  record_id credential = Some i ->
  importCredential env user credential st
  = (Ok tt,
     {| tdb := replay env (import_statements env user credential) (tdb st);
        executed := (executed st ++ import_statements env user credential)%list |}).
Proof.
  intros Hid. unfold import_statements. rewrite Hid.
  destruct credential as [| | | | |fields]; try discriminate.
  rewrite (importCredential_prepared env user (JObj fields)
             (assoc "data" fields) st eq_refl).
  apply storeCredential_returns. now rewrite record_id_prepared.
Qed.

(** Every record with an identifier is stored: the loop returns. *)
Lemma for_credentials_returns (credentials : list json) (st : TxState) :
  Forall (fun c => record_id c <> None) credentials ->
  for_credentials env user credentials st
  = (Ok tt,
     {| tdb := replay env (flat_map (import_statements env user) credentials) (tdb st);
        executed := (executed st
                       ++ flat_map (import_statements env user) credentials)%list |}).
Proof.
  intros H. revert st. induction H as [|c rest Hc _ IH]; intros st; simpl.
  - unfold ret. rewrite app_nil_r. now destruct st.
  - destruct (record_id c) as [i|] eqn:E; [|contradiction].
    unfold bind. rewrite (importCredential_returns c i st E), IH. simpl.
    now rewrite replay_app, app_assoc.
Qed.

End NoFaults.

(* ------------------------------------------------------------------ *)
(** ** A statement that fails *)

Section Faults.

Variable env : Env.
Variable user : User.

Lemma execute_passes (s : statement) (eff : Db -> Db) (st : TxState) :
  db_fails env (List.length (executed st)) = false ->
  execute env s eff st
  = (Ok tt, {| tdb := eff (tdb st); executed := (executed st ++ [s])%list |}).
Proof. intros H. unfold execute. now rewrite H. Qed.

Lemma execute_fails (s : statement) (eff : Db -> Db) (st : TxState) :
  db_fails env (List.length (executed st)) = true ->
  execute env s eff st = (Throw (QueryFailedError "statement failed"), st).
Proof. intros H. unfold execute. now rewrite H. Qed.

(** Storing a record filed under [i]: every statement passes and the
    record is stored, or the first statement that fails ends it, after
    the statements before it. *)
Lemma storeCredential_outcome (credential : json) (i : string) (st : TxState) :
  record_id credential = Some i ->
  let S := store_statements env user i credential in
  let n0 := List.length (executed st) in
  ((forall j, j < List.length S -> db_fails env (n0 + j) = false) ->
   storeCredential env credential user st
   = (Ok tt, {| tdb := replay env S (tdb st);
                executed := (executed st ++ S)%list |}))
  /\ (forall k, k < List.length S ->
       (forall j, j < k -> db_fails env (n0 + j) = false) ->
       db_fails env (n0 + k) = true ->
       storeCredential env credential user st
       = (Throw (QueryFailedError "statement failed"),
          {| tdb := replay env (firstn k S) (tdb st);
             executed := (executed st ++ firstn k S)%list |})).
Proof.
  intros Hid. cbv zeta.
  unfold record_id in Hid.
  destruct credential as [| | | | |fields]; try discriminate.
  destruct (assoc "id" fields) as [[| | |i'| |]|] eqn:E; try discriminate.
  injection Hid as ->.
  assert (Hrec : record_id (JObj fields) = Some i)
    by (unfold record_id; now rewrite E).
  set (st1 := {| tdb := put_credential i (JObj fields) (tdb st);
                 executed := (executed st ++ [UpsertCredentials (JObj fields)])%list |}).
  set (st2 := {| tdb := put_link (link_of env i user) (tdb st1);
                 executed := (executed st1
                                ++ [UpsertSharedCredentials (link_of env i user)])%list |}).
  assert (L1 : List.length (executed st1) = List.length (executed st) + 1)
    by (unfold st1; simpl; now rewrite length_app).
  assert (L2 : List.length (executed st2) = List.length (executed st) + 2)
    by (unfold st2, st1; simpl; rewrite !length_app; simpl; lia).
  assert (L1' : List.length (executed st) + 1 = List.length (executed st1))
    by (symmetry; exact L1).
  assert (L2' : List.length (executed st) + 2 = List.length (executed st2))
    by (symmetry; exact L2).
  assert (At0 : forall b, db_fails env (List.length (executed st) + 0) = b ->
                          db_fails env (List.length (executed st)) = b)
    by (intros b; now rewrite Nat.add_0_r).
  unfold storeCredential, upsertCredentialsEntity, upsertSharedCredentials,
    query_setval, store_statements. rewrite E. unfold bind, ret.
  destruct (database_type env =? "postgresdb"); simpl List.length; split.
  - intros Hok.
    rewrite (execute_passes _ _ st) by (apply At0, Hok; lia). fold st1.
    rewrite (execute_passes _ _ st1) by (rewrite <- L1' ; apply Hok; lia). fold st2.
    rewrite (execute_passes _ _ st2) by (rewrite <- L2'; apply Hok; lia).
    unfold st2, st1. simpl. rewrite E, <- !app_assoc. reflexivity.
  - intros k Hk Hbefore Hfail.
    destruct k as [|[|[|k]]]; [| | |lia].
    + rewrite (execute_fails _ _ st) by (apply At0, Hfail).
      simpl. rewrite app_nil_r. now destruct st.
    + rewrite (execute_passes _ _ st) by (apply At0, Hbefore; lia). fold st1.
      rewrite (execute_fails _ _ st1) by (rewrite <- L1'; exact Hfail).
      unfold st1. simpl. now rewrite E.
    + rewrite (execute_passes _ _ st) by (apply At0, Hbefore; lia). fold st1.
      rewrite (execute_passes _ _ st1) by (rewrite <- L1'; apply Hbefore; lia).
      fold st2.
      rewrite (execute_fails _ _ st2) by (rewrite <- L2'; exact Hfail).
      unfold st2, st1. simpl. rewrite E, <- !app_assoc. reflexivity.
  - intros Hok.
    rewrite (execute_passes _ _ st) by (apply At0, Hok; lia). fold st1.
    rewrite (execute_passes _ _ st1) by (rewrite <- L1' ; apply Hok; lia). fold st2.
    unfold st2, st1. simpl. rewrite E, <- !app_assoc. reflexivity.
  - intros k Hk Hbefore Hfail.
    destruct k as [|[|k]]; [| |lia].
    + rewrite (execute_fails _ _ st) by (apply At0, Hfail).
      simpl. rewrite app_nil_r. now destruct st.
    + rewrite (execute_passes _ _ st) by (apply At0, Hbefore; lia). fold st1.
      rewrite (execute_fails _ _ st1) by (rewrite <- L1'; exact Hfail).
      unfold st1. simpl. now rewrite E.
Qed.

Lemma importCredential_outcome (credential : json) (i : string) (st : TxState) :
  record_id credential = Some i ->
  let S := import_statements env user credential in
  let n0 := List.length (executed st) in
  ((forall j, j < List.length S -> db_fails env (n0 + j) = false) ->
   importCredential env user credential st
   = (Ok tt, {| tdb := replay env S (tdb st);
                executed := (executed st ++ S)%list |}))
  /\ (forall k, k < List.length S ->
       (forall j, j < k -> db_fails env (n0 + j) = false) ->
       db_fails env (n0 + k) = true ->
       importCredential env user credential st
       = (Throw (QueryFailedError "statement failed"),
          {| tdb := replay env (firstn k S) (tdb st);
             executed := (executed st ++ firstn k S)%list |})).
Proof.
  intros Hid. cbv zeta. unfold import_statements. rewrite Hid.
  destruct credential as [| | | | |fields]; try discriminate.
  assert (Hp : record_id (prepared env (JObj fields)) = Some i)
    by now rewrite record_id_prepared.
  destruct (storeCredential_outcome (prepared env (JObj fields)) i st Hp)
    as [Hok Hfail].
  split.
  - intros H.
    rewrite (importCredential_prepared env user (JObj fields)
               (assoc "data" fields) st eq_refl). now apply Hok.
  - intros k Hk Hbefore Hk'.
    rewrite (importCredential_prepared env user (JObj fields)
               (assoc "data" fields) st eq_refl). now apply Hfail.
Qed.

(** A batch in which the statement of index [k] is the first to fail:
    the loop throws after the [k] statements before it. *)
Lemma for_credentials_fault (records : list json) :
  Forall (fun c => record_id c <> None) records ->
  forall (k : nat) (st : TxState),
    k < List.length (flat_map (import_statements env user) records) ->
    (forall j, j < k -> db_fails env (List.length (executed st) + j) = false) ->
    db_fails env (List.length (executed st) + k) = true ->
    for_credentials env user records st
    = (Throw (QueryFailedError "statement failed"),
       {| tdb := replay env (firstn k (flat_map (import_statements env user) records))
                        (tdb st);
          executed := (executed st
                         ++ firstn k (flat_map (import_statements env user)
                                               records))%list |}).
Proof.
  induction 1 as [|c rest Hc _ IH]; intros k st Hk Hbefore Hfail;
    [simpl in Hk; lia|].
  destruct (record_id c) as [i|] eqn:E; [|contradiction].
  destruct (importCredential_outcome c i st E) as [Hok Hthrow].
  simpl flat_map in *. simpl for_credentials. unfold bind.
  rewrite firstn_app.
  destruct (Nat.lt_ge_cases k (List.length (import_statements env user c)))
    as [Hin | Hout].
  - rewrite (Hthrow k Hin Hbefore Hfail).
    replace (k - List.length (import_statements env user c)) with 0 by lia.
    simpl firstn. now rewrite app_nil_r.
  - rewrite Hok by (intros j Hj; apply Hbefore; lia).
    rewrite firstn_all2 by exact Hout.
    rewrite length_app in Hk.
    rewrite (IH (k - List.length (import_statements env user c))).
    + simpl. now rewrite replay_app, app_assoc.
    + lia.
    + intros j Hj. simpl. rewrite length_app, <- Nat.add_assoc.
      apply Hbefore. lia.
    + simpl. rewrite length_app, <- Nat.add_assoc.
      replace (List.length (import_statements env user c)
               + (k - List.length (import_statements env user c))) with k by lia.
      exact Hfail.
Qed.

End Faults.

(* ------------------------------------------------------------------ *)
(** ** The claims *)

(** A tactic for the side conditions of the concrete scenario: they are
    decided by evaluation. *)
Ltac by_evaluation :=
  unfold single_file, directory_of, holds, passes_input_checks;
  repeat match goal with
         | |- _ /\ _ => split
         | |- exists _, _ => eexists
         | |- NoDup _ => constructor
         | |- Forall _ _ => constructor
         | |- Forall2 _ _ _ => constructor; unfold holds
         end;
  try first [ reflexivity
            | vm_compute;
              first [reflexivity | discriminate | tauto | intuition discriminate] ].

(** C1. All database writes of an invocation happen inside a single
    transaction.  An invocation ends in one of three ways: it never
    opens a transaction and leaves storage alone; or it opens one
    transaction, sends all its statements inside it and commits, the
    tables being those statements replayed; or it opens one transaction
    which is rolled back, the error is thrown on and the credential and
    ownership-link tables are exactly as before the invocation.  And
    when a persistence step fails partway through a batch (the
    statement of index [k] is the first the database fails), the
    invocation throws that failure, the [k] statements before it were
    sent, the transaction ends in a rollback and both tables are exactly
    as before: no partially imported batch is left. *)
Theorem C1_single_transaction_all_or_nothing (env : Env) (flags : Flags) (db : Db) :
  let o := run env flags db in
  ((trace o = [] /\ storage o = db)
   \/ (exists stmts,
         trace o = START_TRANSACTION :: map Statement stmts ++ [COMMIT] /\
         thrown o = None /\ storage o = replay env stmts db)
   \/ (exists stmts e,
         trace o = START_TRANSACTION :: map Statement stmts ++ [ROLLBACK] /\
         thrown o = Some e /\
         credentials_entity (storage o) = credentials_entity db /\
         shared_credentials (storage o) = shared_credentials db))
  /\ (thrown o = None \/
      (credentials_entity (storage o) = credentials_entity db /\
       shared_credentials (storage o) = shared_credentials db))
  /\ (forall (records : list json) (user : User) (k : nat),
        single_file env flags records \/ directory_of env flags records ->
        assignee env flags = Ok user ->
        Forall (fun c => record_id c <> None) records ->
        k < List.length (flat_map (import_statements env user) records) ->
        (forall j, j < k -> db_fails env j = false) ->
        db_fails env k = true ->
        thrown o = Some (QueryFailedError "statement failed") /\
        trace o
        = START_TRANSACTION
            :: map Statement
                   (firstn k (flat_map (import_statements env user) records))
            ++ [ROLLBACK] /\
        credentials_entity (storage o) = credentials_entity db /\
        shared_credentials (storage o) = shared_credentials db).
Proof.
  cbv zeta. split; [|split].
  - destruct (run_outcomes env flags)
      as [(th & lg & H) | [(user & stmts & lg & _ & H) | (stmts & e & H)]];
      rewrite H; simpl.
    + left; auto.
    + right; left; exists stmts; auto.
    + right; right; exists stmts, e; auto.
  - destruct (run_outcomes env flags)
      as [(th & lg & H) | [(user & stmts & lg & _ & H) | (stmts & e & H)]];
      rewrite H; simpl; auto.
  - intros records user k Hmode Hu Hids Hk Hbefore Hfail.
    assert (Hrun : run env flags db
                   = match transaction (for_credentials env user records) db with
                     | (Throw e, db', tr) => threw e db' tr
                     | (Ok _, db', tr) =>
                         returned [reportSuccess
                                     (Some (JNum (Z.of_nat (List.length records))))]
                                  db' tr
                     end).
    { destruct Hmode as [Hfile | Hdir];
        [now apply run_single_file | now apply run_directory]. }
    rewrite Hrun. unfold transaction.
    rewrite (for_credentials_fault env user records Hids k); simpl; auto.
Qed.

Lemma C1_witness :
  let o := run Scenario.flaky (Scenario.import_file "both.json") Scenario.stale_db in
  thrown o = Some (QueryFailedError "statement failed") /\
  List.length (trace o) = 6 /\
  credentials_entity (storage o) = credentials_entity Scenario.stale_db /\
  shared_credentials (storage o) = shared_credentials Scenario.stale_db.
Proof.
  cbv zeta.
  destruct (C1_single_transaction_all_or_nothing
              Scenario.flaky (Scenario.import_file "both.json") Scenario.stale_db)
    as (_ & _ & Hfault).
  destruct (Hfault [Scenario.c1; Scenario.c2] Scenario.u1 4)
    as (Hthrown & Htrace & Hc & Hs).
  - left. by_evaluation.
  - reflexivity.
  - repeat constructor; discriminate.
  - vm_compute. lia.
  - intros j Hj. destruct j as [|[|[|[|j]]]]; try reflexivity. lia.
  - reflexivity.
  - rewrite Htrace. repeat split; assumption.
Defined.

(** A batch of two records on a Postgres whose fifth statement fails:
    four statements were sent, among them the repair after the first
    record; the transaction was rolled back and the tables hold nothing
    of the batch, while the sequence keeps what the repair set. *)
Example rollback_leaves_no_row :
  let o := run Scenario.flaky (Scenario.import_file "both.json") Scenario.empty_db in
  thrown o = Some (QueryFailedError "statement failed")
  /\ credentials_entity (storage o) = []
  /\ shared_credentials (storage o) = []
  /\ credentials_entity_id_seq (storage o) = Some "c1"
  /\ List.length (trace o) = 6
  /\ last (trace o) COMMIT = ROLLBACK.
Proof. vm_compute. repeat split. Qed.



(** C3, as the code has it.  A single-file import of [N] well-formed
    records with pairwise distinct identifiers, none of which the tables
    hold yet (in particular: into empty tables), that returns, adds
    exactly [N] credential rows and exactly [N] ownership links; every
    added link pairs a stored credential with the resolved assignee, as
    credential owner. *)
Theorem C3_rows_and_links_added
        (env : Env) (flags : Flags) (records : list json) (user : User) (db : Db) :
  single_file env flags records ->
  assignee env flags = Ok user ->
  thrown (run env flags db) = None ->
  NoDup (ids_of records) ->
  (forall i, In i (ids_of records) -> assoc i (credentials_entity db) = None) ->
  (forall i, In i (ids_of records) ->
             ~ In (i, id user) (map link_key (shared_credentials db))) ->
  let after := storage (run env flags db) in
  credentials_entity after = (credentials_entity db ++ rows_of env records)%list /\
  shared_credentials after
  = (shared_credentials db ++ new_links env user records)%list /\
  List.length (credentials_entity after)
  = List.length (credentials_entity db) + List.length records /\
  List.length (shared_credentials after)
  = List.length (shared_credentials db) + List.length records /\
  Forall (fun l => userId l = id user /\ role l = CREDENTIAL_OWNER env /\
                   In (credentialsId l) (map fst (credentials_entity after)))
         (new_links env user records).
Proof.
  intros Hfile Huser Hret Hnd Hfresh Hlinks.
  destruct (run_returns env flags records user db (or_introl Hfile) Huser Hret)
    as [Hids Hrun].
  cbv zeta. rewrite Hrun. simpl storage.
  assert (Hc : credentials_entity
                 (replay env (flat_map (import_statements env user) records) db)
               = (credentials_entity db ++ rows_of env records)%list).
  { rewrite credentials_replay_import. apply upserts_fresh.
    - now rewrite ids_of_rows.
    - intros k Hk. apply Hfresh. now rewrite <- (ids_of_rows env). }
  assert (Hs : shared_credentials
                 (replay env (flat_map (import_statements env user) records) db)
               = (shared_credentials db ++ new_links env user records)%list).
  { rewrite shared_replay, links_of_import. apply upsert_links_fresh.
    - rewrite new_links_keys. now apply NoDup_pair_right.
    - intros l Hl. unfold new_links in Hl. apply in_map_iff in Hl as (i & <- & Hi).
      now apply Hlinks. }
  rewrite Hc, Hs. repeat split.
  - rewrite length_app. f_equal.
    rewrite <- (length_map fst), ids_of_rows. now apply ids_of_length.
  - rewrite length_app. f_equal. unfold new_links.
    rewrite length_map. now apply ids_of_length.
  - unfold new_links. rewrite Forall_map. apply Forall_forall. intros i Hi.
    simpl. repeat split. rewrite map_app, ids_of_rows. apply in_or_app. now right.
Qed.

Lemma C3_witness :
  let after := storage (run Scenario.sqlite (Scenario.import_file "both.json")
                            Scenario.stale_db) in
  List.length (credentials_entity after) = 3 /\
  List.length (shared_credentials after) = 3.
Proof.
  destruct (C3_rows_and_links_added
              Scenario.sqlite (Scenario.import_file "both.json")
              [Scenario.c1; Scenario.c2] Scenario.u1 Scenario.stale_db)
    as (_ & _ & Hc & Hs & _).
  - by_evaluation.
  - reflexivity.
  - reflexivity.
  - by_evaluation.
  - intros i. vm_compute. intuition (subst; reflexivity).
  - intros i. vm_compute. intuition (subst; discriminate).
  - split; [exact Hc | exact Hs].
Defined.

(** Two records under one identifier are stored as one row with one
    link, and the import still returns, reporting two; and a file of one
    record leaves two rows where the tables held another one before. *)
Lemma C3_counterexample :
  (single_file Scenario.sqlite (Scenario.import_file "twice.json")
               [Scenario.c1; Scenario.c1] /\
   let o := run Scenario.sqlite (Scenario.import_file "twice.json")
                Scenario.empty_db in
   thrown o = None /\
   List.length (credentials_entity (storage o)) = 1 /\
   List.length (shared_credentials (storage o)) = 1)
  /\
  (single_file Scenario.sqlite (Scenario.import_file "file.json") [Scenario.c1] /\
   let o := run Scenario.sqlite (Scenario.import_file "file.json")
                Scenario.stale_db in
   thrown o = None /\
   List.length (credentials_entity (storage o)) = 2 /\
   List.length (shared_credentials (storage o)) = 2 /\
   exists l, In l (shared_credentials (storage o)) /\ userId l <> id Scenario.u1).
Proof.
  split; (split; [by_evaluation|]); vm_compute; repeat split.
  eexists. split; [left; reflexivity | discriminate].
Qed.

(** C4. Importing the same input twice into the same storage leaves the
    ownership links of the first run as they are: each link is upserted
    on its (credential identifier, user identifier) pair, so the second
    run finds every link it writes; and the run never puts two links
    under one pair into a table that had none. *)
Theorem C4_ownership_links_idempotent (env : Env) (flags : Flags) (db : Db) :
  let first := storage (run env flags db) in
  let second := storage (run env flags first) in
  shared_credentials second = shared_credentials first /\
  (NoDup (map link_key (shared_credentials db)) ->
   NoDup (map link_key (shared_credentials first)) /\
   NoDup (map link_key (shared_credentials second))).
Proof.
  cbv zeta.
  destruct (run_outcomes env flags)
    as [(th & lg & H) | [(user & stmts & lg & Hown & H) | (stmts & e & H)]].
  - rewrite !H. simpl. auto.
  - rewrite !H. simpl. rewrite !shared_replay. split.
    + apply upsert_links_idempotent. intros a b Ha Hb Hk.
      pose proof (owned_links env user stmts Hown) as Hall.
      rewrite Forall_forall in Hall.
      destruct (Hall a Ha) as [Hua Hra]. destruct (Hall b Hb) as [Hub Hrb].
      destruct a, b. unfold link_key in Hk. simpl in *. congruence.
    + intros Hnd. split; repeat apply upsert_links_NoDup; assumption.
  - rewrite !H. simpl. auto.
Qed.

Lemma C4_witness :
  let first := storage (run Scenario.postgres (Scenario.import_file "both.json")
                            Scenario.stale_db) in
  let second := storage (run Scenario.postgres (Scenario.import_file "both.json")
                             first) in
  List.length (shared_credentials first) = 3 /\
  shared_credentials second = shared_credentials first /\
  NoDup (map link_key (shared_credentials second)).
Proof.
  destruct (C4_ownership_links_idempotent
              Scenario.postgres (Scenario.import_file "both.json")
              Scenario.stale_db) as [Hsame Hnd].
  split; [reflexivity|]. split; [exact Hsame|].
  apply Hnd. vm_compute. repeat constructor. simpl. tauto.
Defined.

(** C5. A directory-mode run over a directory of [N] JSON files, each
    holding one record, ends exactly as the single-file run over the
    array of those [N] records, in the same order, does: the same
    tables, and also the same statements, report and error. *)
Theorem C5_directory_as_single_file
        (env : Env) (dir file : Flags) (records : list json) (db : Db) :
  directory_of env dir records ->
  single_file env file records ->
  flag_userId dir = flag_userId file ->
  run env dir db = run env file db /\
  storage (run env dir db) = storage (run env file db).
Proof.
  intros Hdir Hfile Huid.
  assert (Hrun : run env dir db = run env file db).
  { assert (Hu : assignee env dir = assignee env file)
      by (unfold assignee; now rewrite Huid).
    destruct (assignee env file) as [user | e] eqn:E.
    - rewrite (run_directory _ _ _ _ _ Hdir Hu).
      now rewrite (run_single_file _ _ _ _ _ Hfile E).
    - rewrite (run_unresolved _ _ _ _ (directory_passes _ _ _ Hdir) Hu).
      now rewrite (run_unresolved _ _ _ _ (single_file_passes _ _ _ Hfile) E). }
  split; [exact Hrun | now rewrite Hrun].
Qed.

Lemma C5_witness :
  storage (run Scenario.postgres (Scenario.import_directory "backups/latest")
               Scenario.stale_db)
  = storage (run Scenario.postgres (Scenario.import_file "both.json")
                 Scenario.stale_db).
Proof.
  apply (C5_directory_as_single_file
           Scenario.postgres (Scenario.import_directory "backups/latest")
           (Scenario.import_file "both.json") [Scenario.c1; Scenario.c2]).
  - unfold directory_of. repeat split; try reflexivity.
    repeat constructor; eexists; split; reflexivity.
  - by_evaluation.
  - reflexivity.
Defined.

(** C6, as the code has it.  In directory mode an input path that
    exists but is not a directory ends the command with the logged
    message that the argument must be a directory, nothing thrown and
    nothing written.  A path that does not exist is not turned down by
    this check: the run goes on to resolve the assignee and to glob the
    path, never logs that message, and, the glob finding no file,
    writes nothing either. *)
Theorem C6_existing_non_directory_rejected
        (env : Env) (flags : Flags) (db : Db) (p : string) :
  input flags = Some p -> p <> "" -> separate flags = true ->
  (forall content, fs env p = Some (File content) ->
     run env flags db
     = returned [Info "The argument to --input must be a directory"] db [])
  /\ (fs env p = None -> glob_json env (inputPath env flags) = [] ->
      let o := run env flags db in
      storage o = db /\
      (trace o = [] \/ trace o = [START_TRANSACTION; COMMIT]) /\
      logged o <> [Info "The argument to --input must be a directory"]).
Proof.
  intros Hin Hp Hsep.
  assert (Ht : truthy (input flags) = true).
  { rewrite Hin. simpl. apply negb_true_iff, String.eqb_neq. exact Hp. }
  split.
  - intros content Hfs. unfold run, existsSync, isDirectory.
    rewrite Ht, Hsep, Hin. simpl. now rewrite Hfs.
  - intros Hfs Hglob. unfold run, existsSync, isDirectory.
    rewrite Ht, Hsep, Hin. simpl. rewrite Hfs. simpl.
    destruct (assignee env flags) as [user | e]; simpl.
    + rewrite Hglob. simpl. repeat split; [now right | discriminate].
    + repeat split; [now left | discriminate].
Qed.

Lemma C6_witness :
  run Scenario.postgres (Scenario.import_directory "file.json") Scenario.stale_db
  = returned [Info "The argument to --input must be a directory"]
             Scenario.stale_db []
  /\ storage (run Scenario.postgres (Scenario.import_directory "nowhere")
                  Scenario.stale_db) = Scenario.stale_db.
Proof.
  split.
  - destruct (C6_existing_non_directory_rejected
                Scenario.postgres (Scenario.import_directory "file.json")
                Scenario.stale_db "file.json") as [Hfile _];
      [reflexivity | discriminate | reflexivity |].
    exact (Hfile _ eq_refl).
  - destruct (C6_existing_non_directory_rejected
                Scenario.postgres (Scenario.import_directory "nowhere")
                Scenario.stale_db "nowhere") as [_ Hmissing];
      [reflexivity | discriminate | reflexivity |].
    exact (proj1 (Hmissing eq_refl eq_refl)).
Defined.

(** In directory mode a path that does not exist is not refused: with
    the owner in place the command reports a successful import of no
    credentials. *)
Lemma C6_counterexample :
  fs Scenario.postgres "nowhere" = None /\
  separate (Scenario.import_directory "nowhere") = true /\
  let o := run Scenario.postgres (Scenario.import_directory "nowhere")
               Scenario.empty_db in
  thrown o = None /\
  logged o = [Info "Successfully imported 0 credentials."].
Proof. vm_compute. repeat split. Qed.

(** C7, as the code has it.  An invocation that gets past the input
    checks (an input path is given and, in directory mode, it is not an
    existing non-directory) and whose assignee cannot be resolved throws
    the descriptive error before any transaction is opened, storage
    unchanged: for a non-empty [userId] matching no account, that no
    user with this ID was found; for no [userId] (or an empty one) and
    no account with the global-owner role, that the owner was not found,
    followed by the fix instruction. *)
Theorem C7_unresolved_assignee_fails_before_writes
        (env : Env) (flags : Flags) (db : Db) :
  passes_input_checks env flags ->
  (forall uid, flag_userId flags = Some uid -> uid <> "" ->
     (forall u, In u (users env) -> id u <> uid) ->
     run env flags db
     = threw (Error ("Failed to find user with ID " ++ uid)) db [])
  /\ (truthy (flag_userId flags) = false ->
      (forall u, In u (users env) -> user_role u <> GLOBAL_OWNER env) ->
      run env flags db
      = threw (Error ("Failed to find owner. " ++ UM_FIX_INSTRUCTION env)) db []).
Proof.
  intros Hpass. split.
  - intros uid Huid Hne Hnone. apply run_unresolved; [assumption|].
    unfold assignee. rewrite Huid. simpl.
    replace (uid =? "") with false by (symmetry; now apply String.eqb_neq).
    simpl. now apply getAssignee_unknown.
  - intros Hfalsy Hnone. apply run_unresolved; [assumption|].
    unfold assignee. rewrite Hfalsy. now apply getOwner_missing.
Qed.

Lemma C7_witness :
  run Scenario.no_owner (Scenario.import_file "file.json") Scenario.stale_db
  = threw (Error "Failed to find owner. Please run the user-management reset command.")
          Scenario.stale_db []
  /\ run Scenario.sqlite
         {| input := Some "file.json"; separate := false; flag_userId := Some "u7" |}
         Scenario.stale_db
     = threw (Error "Failed to find user with ID u7") Scenario.stale_db [].
Proof.
  split.
  - destruct (C7_unresolved_assignee_fails_before_writes
                Scenario.no_owner (Scenario.import_file "file.json")
                Scenario.stale_db) as [_ Howner]; [by_evaluation|].
    apply Howner; [reflexivity|]. intros u [<- | []]. discriminate.
  - destruct (C7_unresolved_assignee_fails_before_writes
                Scenario.sqlite
                {| input := Some "file.json"; separate := false;
                   flag_userId := Some "u7" |}
                Scenario.stale_db) as [Huser _]; [by_evaluation|].
    apply (Huser "u7"); [reflexivity | discriminate |].
    intros u [<- | [<- | []]]; discriminate.
Defined.

(** Without an input path the command logs its usage hint and returns,
    although no account holds the global-owner role: nothing is
    thrown. *)
Lemma C7_counterexample :
  flag_userId Scenario.no_input = None /\
  assignee Scenario.no_owner Scenario.no_input
  = Throw (Error "Failed to find owner. Please run the user-management reset command.") /\
  run Scenario.no_owner Scenario.no_input Scenario.empty_db
  = returned [Info "An input file or directory with --input must be provided"]
             Scenario.empty_db [].
Proof. vm_compute. repeat split. Qed.

(** C8 at the input where the code departs from it: a file whose
    content is the JSON literal null.  The parsed value is not an array,
    yet what the command throws is the type error of reading [length]
    of null, not the descriptive error; nothing is written. *)
Theorem C8_null_is_not_rejected_as_not_an_array :
  jsonParse Scenario.sqlite "null" = Ok JNull /\
  isArray JNull = false /\
  run Scenario.sqlite (Scenario.import_file "null.json") Scenario.stale_db
  = threw (TypeError "Cannot read properties of null (reading 'length')")
          Scenario.stale_db [] /\
  thrown (run Scenario.sqlite (Scenario.import_file "null.json") Scenario.stale_db)
  <> Some not_an_array.
Proof. vm_compute. repeat split. discriminate. Qed.

Lemma by_number_total (a b : string) :
  Scenario.by_number a b = true \/ Scenario.by_number b a = true.
Proof. unfold Scenario.by_number. rewrite !Z.leb_le. lia. Qed.

Lemma by_number_trans (a b c : string) :
  Scenario.by_number a b = true -> Scenario.by_number b c = true ->
  Scenario.by_number a c = true.
Proof. unfold Scenario.by_number. rewrite !Z.leb_le. lia. Qed.

(** C9, as the code has it.  On Postgres the sequence repair is the last
    statement of storing each record, inside the loop: an import (in
    either mode) that returns has sent, for every record, the two
    upserts followed by the repair; when the batch is not empty the
    sequence then holds the greatest credential identifier stored: an
    identifier of the table that every identifier of the table is below
    or equal to, in the order of the identifier column. *)
Theorem C9_sequence_repaired_with_each_record
        (env : Env) (flags : Flags) (records : list json) (user : User) (db : Db) :
  database_type env = "postgresdb" ->
  single_file env flags records \/ directory_of env flags records ->
  assignee env flags = Ok user ->
  thrown (run env flags db) = None ->
  let o := run env flags db in
  trace o
  = START_TRANSACTION
      :: map Statement (flat_map (import_statements env user) records) ++ [COMMIT]
  /\ Forall (fun c => exists i,
                 import_statements env user c
                 = [UpsertCredentials (prepared env c);
                    UpsertSharedCredentials (link_of env i user);
                    Query (setval_sql env)]) records
  /\ (records <> [] ->
      (forall a b, id_le env a b = true \/ id_le env b a = true) ->
      (forall a b c, id_le env a b = true -> id_le env b c = true ->
                     id_le env a c = true) ->
      exists m,
        credentials_entity_id_seq (storage o) = Some m /\
        In m (map fst (credentials_entity (storage o))) /\
        forall i, In i (map fst (credentials_entity (storage o))) ->
                  id_le env i m = true).
Proof.
  intros Hpg Hmode Huser Hret.
  destruct (run_returns env flags records user db Hmode Huser Hret) as [Hids Hrun].
  cbv zeta. rewrite Hrun. simpl trace. simpl storage.
  split; [reflexivity|]. split.
  - eapply Forall_impl; [|exact Hids]. intros c Hc. simpl in Hc.
    unfold import_statements, store_statements. rewrite Hpg.
    destruct (record_id c) as [i|]; [now exists i | contradiction].
  - intros Hne Htotal Htrans.
    pose proof (sequence_after_batch env user records db Hpg Hids Hne) as Hseq.
    cbv zeta in Hseq.
    destruct (credentials_entity_id_seq
                (replay env (flat_map (import_statements env user) records) db))
      as [m|] eqn:Em.
    + exists m. split; [reflexivity|].
      apply (max_id_greatest (id_le env) _ m Htotal Htrans). now symmetry.
    + exfalso. destruct (exists_last Hne) as (front & c & ->).
      apply Forall_app in Hids as [_ Hc]. inversion Hc as [|? ? Hid _]; subst.
      rewrite flat_map_app in Em. simpl flat_map in Em. rewrite app_nil_r in Em.
      rewrite replay_app in Em. unfold import_statements in Em.
      destruct (record_id c) as [i|] eqn:E; [|contradiction].
      unfold store_statements in Em. rewrite Hpg in Em. simpl in Em.
      rewrite record_id_prepared, E in Em.
      match type of Em with
      | credentials_entity_id_seq (setval (max_id _ (map fst ?t)) _) = None =>
          destruct t as [|[k row] t'] eqn:Et
      end.
      * simpl in Et. now apply upsert_not_nil in Et.
      * simpl map in Em.
        destruct (max_id_some (id_le env) k (map fst t')) as [m Hm].
        rewrite Hm in Em. discriminate.
Qed.

Lemma C9_witness :
  exists m,
    credentials_entity_id_seq
      (storage (run Scenario.more (Scenario.import_file "numbered.json")
                    Scenario.empty_db)) = Some m /\
    Scenario.by_number "9" m = true /\ Scenario.by_number "10" m = true.
Proof.
  destruct (C9_sequence_repaired_with_each_record
              Scenario.more (Scenario.import_file "numbered.json")
              [Scenario.n9; Scenario.n10] Scenario.u1 Scenario.empty_db)
    as (_ & _ & Hseq).
  - reflexivity.
  - left. by_evaluation.
  - reflexivity.
  - reflexivity.
  - destruct (Hseq ltac:(discriminate) by_number_total by_number_trans)
      as (m & Hm & _ & Hall).
    exists m. split; [exact Hm|].
    split; apply Hall; vm_compute; tauto.
Defined.

(** The order of the column decides: of the identifiers 9 and 10 the
    repair sets the sequence to 10. *)
Example sequence_is_the_greatest_number :
  credentials_entity_id_seq
    (storage (run Scenario.more (Scenario.import_file "numbered.json")
                  Scenario.empty_db)) = Some "10".
Proof. reflexivity. Qed.

(** On Postgres a batch of two records is followed by no single repair
    after the loop: the first repair is sent before the second record is
    stored; and an empty batch sends no repair at all, leaving a stale
    sequence stale. *)
Lemma C9_counterexample :
  (let o := run Scenario.postgres (Scenario.import_file "both.json")
                Scenario.empty_db in
   thrown o = None /\
   repaired_after_loop (trace o) = false /\
   map is_upsert (trace o)
   = [false; true; true; false; true; true; false; false])
  /\
  (let o := run Scenario.postgres (Scenario.import_file "empty.json")
                Scenario.stale_db in
   thrown o = None /\
   trace o = [START_TRANSACTION; COMMIT] /\
   credentials_entity_id_seq (storage o) = None /\
   max_id (id_le Scenario.postgres) (map fst (credentials_entity (storage o)))
   = Some "c9").
Proof. vm_compute. repeat split. Qed.

(** C10. In single-file mode the count is read from the parsed value
    before the value is checked to be an array: for a file whose content
    parses to null the command throws the type error of reading
    [length] of null, so the descriptive not-an-array error is not
    produced for it; nothing is written. *)
Theorem C10_length_read_before_array_check
        (env : Env) (flags : Flags) (db : Db) (user : User) (content : string) :
  truthy (input flags) = true -> separate flags = false ->
  assignee env flags = Ok user ->
  readFileSync env (flag_value (input flags)) = Ok content ->
  jsonParse env content = Ok JNull ->
  get JNull "length"
  = Throw (TypeError "Cannot read properties of null (reading 'length')")
  /\ run env flags db
     = threw (TypeError "Cannot read properties of null (reading 'length')") db []
  /\ thrown (run env flags db) <> Some not_an_array.
Proof.
  intros Hin Hsep Hu Hread Hparse.
  assert (Hrun : run env flags db
                 = threw (TypeError "Cannot read properties of null (reading 'length')")
                         db []).
  { unfold run. now rewrite Hin, Hsep, Hu, Hread, Hparse. }
  split; [reflexivity|]. split; [exact Hrun|].
  rewrite Hrun. discriminate.
Qed.

Lemma C10_witness :
  thrown (run Scenario.postgres (Scenario.import_file "null.json")
              Scenario.empty_db)
  = Some (TypeError "Cannot read properties of null (reading 'length')").
Proof.
  destruct (C10_length_read_before_array_check
              Scenario.postgres (Scenario.import_file "null.json")
              Scenario.empty_db Scenario.u1 "null"
              eq_refl eq_refl eq_refl eq_refl eq_refl) as (_ & Hrun & _).
  now rewrite Hrun.
Defined.


(* ------------------------------------------------------------------ *)
(** * Further properties of the command *)

(** ** Prefixes *)

Lemma is_prefix_nil {A : Type} (l : list A) : is_prefix [] l.
Proof. now exists l. Qed.

Lemma is_prefix_refl {A : Type} (l : list A) : is_prefix l l.
Proof. exists []. now rewrite app_nil_r. Qed.

Lemma is_prefix_app {A : Type} (a b c : list A) :
  is_prefix b c -> is_prefix (a ++ b) (a ++ c).
Proof. intros [rest ->]. exists rest. now rewrite app_assoc. Qed.

Lemma is_prefix_app_r {A : Type} (a b c : list A) :
  is_prefix a b -> is_prefix a (b ++ c).
Proof. intros [rest ->]. exists (rest ++ c)%list. now rewrite app_assoc. Qed.

Lemma Forall_prefix {A : Type} (P : A -> Prop) (a b : list A) :
  is_prefix a b -> Forall P b -> Forall P a.
Proof. intros [rest ->] H. now apply Forall_app in H. Qed.

(** ** What a loop has sent, however it ends *)

Section Sent.

Variable env : Env.
Variable user : User.

Lemma execute_cases (s : statement) (eff : Db -> Db) (st : TxState) :
  (db_fails env (List.length (executed st)) = true /\
   execute env s eff st = (Throw (QueryFailedError "statement failed"), st))
  \/ (db_fails env (List.length (executed st)) = false /\
      execute env s eff st
      = (Ok tt, {| tdb := eff (tdb st); executed := (executed st ++ [s])%list |})).
Proof. unfold execute. destruct (db_fails env _); auto. Qed.

Lemma storeCredential_sent (credential : json) (st : TxState)
      (r : result unit) (st' : TxState) :
  storeCredential env credential user st = (r, st') ->
  exists new,
    executed st' = (executed st ++ new)%list /\
    tdb st' = replay env new (tdb st) /\
    is_prefix new (match record_id credential with
                   | Some i => store_statements env user i credential
                   | None => []
                   end).
Proof.
  unfold storeCredential, upsertCredentialsEntity, upsertSharedCredentials,
    query_setval, store_statements, record_id.
  assert (Hnone : forall e, @throw string e st = (Throw e, st)) by reflexivity.
  destruct credential as [| | | | |fields];
    try (unfold bind; rewrite Hnone; intros H; inversion H; subst;
         exists []; rewrite app_nil_r; repeat split; apply is_prefix_nil).
  destruct (assoc "id" fields) as [[| | |i| |]|] eqn:E;
    try (unfold bind; rewrite Hnone; intros H; inversion H; subst;
         exists []; rewrite app_nil_r; repeat split; apply is_prefix_nil).
  unfold bind, ret.
  destruct (execute_cases (UpsertCredentials (JObj fields))
              (put_credential i (JObj fields)) st) as [[_ ->] | [_ ->]].
  { intros H; inversion H; subst. exists []. rewrite app_nil_r.
    repeat split. apply is_prefix_nil. }
  set (st1 := {| tdb := put_credential i (JObj fields) (tdb st);
                 executed := (executed st ++ [UpsertCredentials (JObj fields)])%list |}).
  destruct (execute_cases (UpsertSharedCredentials (link_of env i user))
              (put_link (link_of env i user)) st1) as [[_ ->] | [_ ->]].
  { intros H; inversion H; subst. exists [UpsertCredentials (JObj fields)].
    repeat split.
    - simpl. unfold record_id. now rewrite E.
    - now eexists. }
  set (st2 := {| tdb := put_link (link_of env i user) (tdb st1);
                 executed := (executed st1
                                ++ [UpsertSharedCredentials (link_of env i user)])%list |}).
  destruct (database_type env =? "postgresdb").
  - destruct (execute_cases (Query (setval_sql env))
                (fun db => setval (max_id (id_le env) (map fst (credentials_entity db))) db) st2)
      as [[_ ->] | [_ ->]]; intros H; inversion H; subst.
    + exists [UpsertCredentials (JObj fields);
              UpsertSharedCredentials (link_of env i user)].
      repeat split.
      * simpl. now rewrite <- app_assoc.
      * simpl. unfold record_id. now rewrite E.
      * now eexists.
    + exists [UpsertCredentials (JObj fields);
              UpsertSharedCredentials (link_of env i user);
              Query (setval_sql env)].
      repeat split.
      * simpl. now rewrite <- !app_assoc.
      * simpl. unfold record_id. now rewrite E.
      * apply is_prefix_refl.
  - intros H; inversion H; subst.
    exists [UpsertCredentials (JObj fields);
            UpsertSharedCredentials (link_of env i user)].
    repeat split.
    + simpl. now rewrite <- app_assoc.
    + simpl. unfold record_id. now rewrite E.
    + apply is_prefix_refl.
Qed.

Lemma importCredential_sent (credential : json) (st : TxState)
      (r : result unit) (st' : TxState) :
  importCredential env user credential st = (r, st') ->
  exists new,
    executed st' = (executed st ++ new)%list /\
    tdb st' = replay env new (tdb st) /\
    is_prefix new (import_statements env user credential).
Proof.
  intros H. destruct (get credential "data") as [data | e] eqn:G.
  - rewrite (importCredential_prepared _ _ _ _ _ G) in H.
    apply storeCredential_sent in H as (new & Hex & Hdb & Hpre).
    rewrite record_id_prepared in Hpre. now exists new.
  - unfold importCredential, bind in H. rewrite G in H. simpl in H.
    unfold throw in H. inversion H; subst. exists [].
    rewrite app_nil_r. repeat split. apply is_prefix_nil.
Qed.

(** A record that was stored completely has an identifier. *)
Lemma importCredential_ok_id (credential : json) (st st' : TxState) :
  importCredential env user credential st = (Ok tt, st') ->
  executed st' = (executed st ++ import_statements env user credential)%list /\
  tdb st' = replay env (import_statements env user credential) (tdb st).
Proof. intros H. now apply importCredential_ok in H. Qed.

Lemma for_credentials_sent (credentials : list json) (st : TxState)
      (r : result unit) (st' : TxState) :
  for_credentials env user credentials st = (r, st') ->
  exists new,
    executed st' = (executed st ++ new)%list /\
    tdb st' = replay env new (tdb st) /\
    is_prefix new (flat_map (import_statements env user) credentials).
Proof.
  revert st. induction credentials as [|c rest IH]; intros st; simpl.
  - unfold ret. intros H; inversion H; subst. exists [].
    rewrite app_nil_r. repeat split. apply is_prefix_nil.
  - unfold bind at 1.
    destruct (importCredential env user c st) as [[[]|e] st1] eqn:E1.
    + intros H. apply importCredential_ok_id in E1 as [Hex Hdb].
      apply IH in H as (new & Hex' & Hdb' & Hpre).
      exists (import_statements env user c ++ new)%list.
      rewrite Hex', Hdb', Hex, Hdb, replay_app, app_assoc.
      repeat split. now apply is_prefix_app.
    + intros H; inversion H; subst.
      apply importCredential_sent in E1 as (new & Hex & Hdb & Hpre).
      exists new. repeat split; [assumption | assumption |].
      now apply is_prefix_app_r.
Qed.

(** The records of the files a directory loop got through. *)
Lemma for_files_sent (files : list string) (st : TxState)
      (r : result unit) (st' : TxState) :
  for_files env user files st = (r, st') ->
  exists records new,
    Forall2 (holds env) (firstn (List.length records) files) records /\
    (r = Ok tt -> List.length records = List.length files) /\
    executed st' = (executed st ++ new)%list /\
    tdb st' = replay env new (tdb st) /\
    is_prefix new (flat_map (import_statements env user) records) /\
    (r = Ok tt -> new = flat_map (import_statements env user) records).
Proof.
  revert st. induction files as [|f rest IH]; intros st; simpl.
  - unfold ret. intros H; inversion H; subst. exists [], [].
    rewrite app_nil_r. repeat split; try constructor. apply is_prefix_nil.
  - destruct (readFileSync env f) as [content | e] eqn:Hread; simpl.
    2:{ unfold bind, throw. intros H; inversion H; subst. exists [], [].
        rewrite app_nil_r. repeat split; try constructor; try discriminate.
        apply is_prefix_nil. }
    unfold bind at 1. unfold ret at 1.
    destruct (jsonParse env content) as [c | e] eqn:Hparse; simpl.
    2:{ unfold bind, throw. intros H; inversion H; subst. exists [], [].
        rewrite app_nil_r. repeat split; try constructor; try discriminate.
        apply is_prefix_nil. }
    unfold bind at 1. unfold ret at 1. unfold bind at 1.
    assert (Hholds : holds env f c) by (exists content; now split).
    destruct (importCredential env user c st) as [[[]|e] st1] eqn:E1.
    + intros H. apply importCredential_ok_id in E1 as [Hex Hdb].
      apply IH in H as (records & new & Hrec & Hlen & Hex' & Hdb' & Hpre & Hall).
      exists (c :: records), (import_statements env user c ++ new)%list.
      simpl. rewrite Hex', Hdb', Hex, Hdb, replay_app, app_assoc.
      repeat split.
      * now constructor.
      * intros Hr. now rewrite Hlen.
      * now apply is_prefix_app.
      * intros Hr. now rewrite Hall.
    + intros H; inversion H; subst.
      apply importCredential_sent in E1 as (new & Hex & Hdb & Hpre).
      exists [c], new. simpl. rewrite app_nil_r.
      repeat split; try assumption; try discriminate.
      repeat constructor. assumption.
Qed.

End Sent.

(** ** Every invocation, whatever its end *)

Lemma batch_of_single_file (env : Env) (flags : Flags) (records : list json) :
  single_file env flags records -> batch_of env flags records.
Proof.
  intros H. split; [now apply (single_file_passes env flags records)|].
  left. destruct H as (_ & Hsep & Hc). now split.
Qed.

Lemma batch_of_directory (env : Env) (flags : Flags) (records : list json) :
  directory_of env flags records -> batch_of env flags records.
Proof.
  intros H. split; [now apply (directory_passes env flags records)|].
  right. destruct H as (_ & Hsep & _ & Hfiles). now split.
Qed.

Lemma run_batch (env : Env) (flags : Flags) (records : list json)
      (user : User) (db : Db) :
  batch_of env flags records -> assignee env flags = Ok user ->
  run env flags db
  = match transaction (for_credentials env user records) db with
    | (Throw e, db', tr) => threw e db' tr
    | (Ok _, db', tr) =>
        returned [reportSuccess (Some (JNum (Z.of_nat (List.length records))))] db' tr
    end.
Proof.
  intros [[Hin Hdir] [(Hsep & content & Hread & Hparse) | (Hsep & Hfiles)]] Huser;
    unfold run; rewrite Hin, Hdir, Huser, Hsep.
  - rewrite Hread, Hparse. reflexivity.
  - simpl. rewrite (Forall2_length Hfiles). unfold transaction.
    now rewrite (for_files_for_credentials env user _ _ Hfiles).
Qed.

(** An invocation either opens no transaction, or resolves its assignee
    and sends, record by record, a prefix of the statements of its
    batch: all of them when it commits. *)
Lemma run_shape (env : Env) (flags : Flags) (db : Db) :
  (trace (run env flags db) = [] /\ storage (run env flags db) = db /\
   List.length (logged (run env flags db)) <= 1)
  \/ exists user records new,
       passes_input_checks env flags /\
       assignee env flags = Ok user /\
       is_prefix new (flat_map (import_statements env user) records) /\
       ((batch_of env flags records /\
         Forall (fun c => record_id c <> None) records /\
         new = flat_map (import_statements env user) records /\
         run env flags db
         = returned [reportSuccess (Some (JNum (Z.of_nat (List.length records))))]
                    (replay env new db)
                    (START_TRANSACTION :: map Statement new ++ [COMMIT]))
        \/ exists e,
            run env flags db
            = threw e (rolled_back db (replay env new db))
                    (START_TRANSACTION :: map Statement new ++ [ROLLBACK])).
Proof.
  unfold run.
  destruct (negb (truthy (input flags))) eqn:Hin; [left; simpl; auto|].
  destruct (separate flags && existsSync env (flag_value (input flags))
            && negb (isDirectory env (flag_value (input flags)))) eqn:Hdir;
    [left; simpl; auto|].
  assert (Hpass : passes_input_checks env flags).
  { split; [now apply negb_false_iff in Hin | exact Hdir]. }
  destruct (assignee env flags) as [user | e] eqn:Hu; [|left; simpl; auto].
  destruct (separate flags) eqn:Hsep.
  - right. exists user. unfold transaction.
    destruct (for_files env user (glob_json env (inputPath env flags)) _)
      as [[[]|e] st'] eqn:E;
      pose proof E as E0;
      apply for_files_sent in E
        as (records & new & Hrec & Hlen & Hex & Hdb & Hpre & Hall);
      simpl in Hex, Hdb; exists records, new; rewrite Hex;
      (split; [exact Hpass|]); (split; [reflexivity|]); (split; [exact Hpre|]).
    + left. specialize (Hlen eq_refl). specialize (Hall eq_refl).
      rewrite Hlen, firstn_all in Hrec.
      split; [split; [exact Hpass | now right]|].
      rewrite (for_files_for_credentials env user _ _ Hrec) in E0.
      apply for_credentials_ok in E0 as (Hids & _ & _).
      split; [exact Hids|]. split; [exact Hall|].
      rewrite Hdb, Hlen. reflexivity.
    + right. exists e. rewrite Hdb. reflexivity.
  - destruct (readFileSync env (flag_value (input flags))) as [content | e] eqn:Hread;
      [|left; simpl; auto].
    destruct (jsonParse env content) as [credentials | e] eqn:Hparse;
      [|left; simpl; auto].
    destruct (get credentials "length") as [total | e] eqn:Hlen;
      [|left; simpl; auto].
    destruct credentials as [| | | |records|]; try (left; simpl; now auto).
    simpl negb. cbv iota. simpl elements.
    right. exists user, records. unfold transaction.
    destruct (for_credentials env user records _) as [[[]|e] st'] eqn:E.
    + pose proof E as E'. apply for_credentials_ok in E' as (Hids & Hex & Hdb).
      simpl in Hex, Hdb. exists (flat_map (import_statements env user) records).
      rewrite Hex, Hdb.
      split; [exact Hpass|]. split; [reflexivity|].
      split; [apply is_prefix_refl|]. left.
      split; [split; [exact Hpass|]; left; split; [exact Hsep|]; now exists content|].
      split; [exact Hids|]. split; [reflexivity|].
      simpl in Hlen. inversion Hlen. reflexivity.
    + apply for_credentials_sent in E as (new & Hex & Hdb & Hpre).
      simpl in Hex, Hdb. exists new. rewrite Hex, Hdb.
      split; [exact Hpass|]. split; [reflexivity|]. split; [exact Hpre|].
      right. exists e. reflexivity.
Qed.

(** ** What is logged *)

Lemma reportSuccess_number (n : nat) :
  reportSuccess (Some (JNum (Z.of_nat n))) = success_line n.
Proof.
  unfold reportSuccess, success_line, template, toString.
  destruct n as [|[|n]]; try reflexivity.
  do 2 f_equal. f_equal. simpl Z.of_nat. simpl Nat.eqb.
  destruct (Pos.of_succ_nat n); reflexivity.
Qed.

(** X1. An invocation either returns, having logged exactly one
    information line, or throws, having logged nothing itself: then the
    credential and ownership-link tables are as before, and the command
    logs exactly the generic error line followed by the message of the
    error.  A success line and an error are never logged together. *)
Theorem one_line_or_an_error (env : Env) (flags : Flags) (db : Db) :
  let o := run env flags db in
  (thrown o = None /\ (exists text, logged o = [Info text]) /\
   invoke env flags db = (logged o, storage o))
  \/ (exists e, thrown o = Some e /\ logged o = [] /\
      credentials_entity (storage o) = credentials_entity db /\
      shared_credentials (storage o) = shared_credentials db /\
      invoke env flags db
      = ([LogError "An error occurred while importing credentials. See log messages for details.";
          LogError (message e)], storage o)).
Proof.
  cbv zeta. unfold invoke.
  assert (Hret : forall total db' tr,
             let o := returned [reportSuccess total] db' tr in
             (thrown o = None /\ (exists text, logged o = [Info text]) /\
              (match thrown o with
               | Some e => ((logged o ++ catch e)%list, storage o)
               | None => (logged o, storage o)
               end) = (logged o, storage o))).
  { intros. cbv zeta. simpl. repeat split. unfold reportSuccess. eauto. }
  assert (Hthrow : forall e db' tr,
             credentials_entity db' = credentials_entity db ->
             shared_credentials db' = shared_credentials db ->
             let o := threw e db' tr in
             exists e0, thrown o = Some e0 /\ logged o = [] /\
               credentials_entity (storage o) = credentials_entity db /\
               shared_credentials (storage o) = shared_credentials db /\
               (match thrown o with
                | Some e => ((logged o ++ catch e)%list, storage o)
                | None => (logged o, storage o)
                end)
               = ([LogError "An error occurred while importing credentials. See log messages for details.";
                   LogError (message e0)], storage o)).
  { intros e db' tr Hc Hs. cbv zeta. exists e. simpl. repeat split; assumption. }
  unfold run.
  destruct (negb (truthy (input flags))); [left; simpl; eauto|].
  destruct (separate flags && existsSync env (flag_value (input flags))
            && negb (isDirectory env (flag_value (input flags))));
    [left; simpl; eauto|].
  destruct (assignee env flags) as [user | e]; [|right; now apply Hthrow].
  destruct (separate flags).
  - unfold transaction.
    destruct (for_files env user _ _) as [[[]|e] st'];
      [left; apply Hret | right; now apply Hthrow].
  - destruct (readFileSync env _) as [content | e]; [|right; now apply Hthrow].
    destruct (jsonParse env content) as [credentials | e];
      [|right; now apply Hthrow].
    destruct (get credentials "length") as [total | e]; [|right; now apply Hthrow].
    destruct (negb (isArray credentials)); [right; now apply Hthrow|].
    unfold transaction.
    destruct (for_credentials env user _ _) as [[[]|e] st'];
      [left; apply Hret | right; now apply Hthrow].
Qed.

(** X2. An import that returns reports the number of records it read:
    the length of the array in single-file mode, the number of files in
    directory mode; the line reads credential for exactly one record
    and credentials otherwise. *)
Theorem report_counts_the_records
        (env : Env) (flags : Flags) (records : list json) (user : User) (db : Db) :
  batch_of env flags records -> assignee env flags = Ok user ->
  thrown (run env flags db) = None ->
  logged (run env flags db) = [success_line (List.length records)] /\
  (separate flags = true ->
   List.length records = List.length (glob_json env (inputPath env flags))).
Proof.
  intros Hb Hu. rewrite (run_batch env flags records user db Hb Hu).
  intros Hret. apply committed_batch in Hret as [_ Hrun].
  cbv zeta in Hrun. rewrite Hrun. simpl. rewrite reportSuccess_number.
  split; [reflexivity|]. intros Hsep.
  destruct Hb as [_ [(Hsep' & _) | (_ & Hfiles)]]; [congruence|].
  symmetry. apply (Forall2_length Hfiles).
Qed.

Lemma report_counts_the_records_witness :
  logged (run Scenario.more (Scenario.import_file "versions.json") Scenario.empty_db)
  = [Info "Successfully imported 3 credentials."]
  /\ logged (run Scenario.sqlite (Scenario.import_file "file.json") Scenario.empty_db)
     = [Info "Successfully imported 1 credential."].
Proof.
  split.
  - apply (report_counts_the_records
             Scenario.more (Scenario.import_file "versions.json")
             [Scenario.c1; Scenario.c1_renamed; Scenario.c2] Scenario.u1
             Scenario.empty_db).
    + unfold batch_of. split; [by_evaluation|]. left. by_evaluation.
    + reflexivity.
    + reflexivity.
  - apply (report_counts_the_records
             Scenario.sqlite (Scenario.import_file "file.json")
             [Scenario.c1] Scenario.u1 Scenario.empty_db).
    + unfold batch_of. split; [by_evaluation|]. left. by_evaluation.
    + reflexivity.
    + reflexivity.
Defined.

(** X3. An empty batch (the array [[]], or a directory in which the
    glob finds no file) is imported without a statement: one empty
    transaction is committed, zero credentials are reported and storage
    is unchanged, even when the database would fail every statement. *)
Theorem empty_batch_commits_nothing
        (env : Env) (flags : Flags) (user : User) (db : Db) :
  batch_of env flags [] -> assignee env flags = Ok user ->
  run env flags db
  = returned [Info "Successfully imported 0 credentials."] db
             [START_TRANSACTION; COMMIT].
Proof.
  intros Hb Hu. now rewrite (run_batch env flags [] user db Hb Hu).
Qed.

Lemma empty_batch_commits_nothing_witness :
  run Scenario.down (Scenario.import_file "empty.json") Scenario.stale_db
  = returned [Info "Successfully imported 0 credentials."] Scenario.stale_db
             [START_TRANSACTION; COMMIT]
  /\ run Scenario.down (Scenario.import_directory "nowhere") Scenario.stale_db
     = returned [Info "Successfully imported 0 credentials."] Scenario.stale_db
                [START_TRANSACTION; COMMIT].
Proof.
  split.
  - apply (empty_batch_commits_nothing
             Scenario.down (Scenario.import_file "empty.json") Scenario.u1).
    + unfold batch_of. split; [by_evaluation|]. left. by_evaluation.
    + reflexivity.
  - apply (empty_batch_commits_nothing
             Scenario.down (Scenario.import_directory "nowhere") Scenario.u1).
    + unfold batch_of. split; [by_evaluation|]. right. by_evaluation.
    + reflexivity.
Defined.

(** X4. The assignee is an account of the user table: for a non-empty
    [userId] an account with that identifier, otherwise (no [userId], or
    an empty one) an account with the global-owner role.  Resolution
    fails only when no account qualifies, with the error that names the
    identifier, or with the owner error followed by the fix
    instruction. *)
Theorem assignee_is_a_qualifying_account (env : Env) (flags : Flags) :
  let wanted u :=
    if truthy (flag_userId flags)
    then id u =? flag_value (flag_userId flags)
    else user_role u =? GLOBAL_OWNER env in
  match assignee env flags with
  | Ok u => In u (users env) /\ wanted u = true
  | Throw e =>
      (forall u, In u (users env) -> wanted u = false) /\
      e = if truthy (flag_userId flags)
          then Error ("Failed to find user with ID "
                        ++ flag_value (flag_userId flags))
          else Error ("Failed to find owner. " ++ UM_FIX_INSTRUCTION env)
  end.
Proof.
  cbv zeta. unfold assignee, getAssignee, getOwner, findOneBy.
  destruct (truthy (flag_userId flags)).
  - destruct (find _ (users env)) as [u|] eqn:F.
    + apply find_some in F. exact F.
    + split; [|reflexivity]. intros u Hu. exact (find_none _ _ F u Hu).
  - destruct (find _ (users env)) as [u|] eqn:F.
    + apply find_some in F. exact F.
    + split; [|reflexivity]. intros u Hu. exact (find_none _ _ F u Hu).
Qed.

(** ** The statements an invocation sends *)

Lemma statements_of_transaction (new : list statement) (last : event) :
  (last = COMMIT \/ last = ROLLBACK) ->
  statements_of (START_TRANSACTION :: map Statement new ++ [last]) = new.
Proof.
  intros Hlast. unfold statements_of. simpl. rewrite flat_map_app. simpl.
  assert (Hl : (match last with Statement s => [s] | _ => [] end) = [])
    by (destruct Hlast; subst; reflexivity).
  rewrite Hl, !app_nil_r. clear.
  induction new as [|s new IH]; [reflexivity|]. simpl. now rewrite IH.
Qed.

(** The first index below [n] at which a test holds, if any. *)
Lemma first_failure (f : nat -> bool) (n : nat) :
  (forall j, j < n -> f j = false)
  \/ exists k, k < n /\ f k = true /\ forall j, j < k -> f j = false.
Proof.
  induction n as [|n [Hnone | (k & Hk & Hf & Hbefore)]].
  - left. intros j Hj. lia.
  - destruct (f n) eqn:E.
    + right. exists n. repeat split; [lia | exact E | exact Hnone].
    + left. intros j Hj. destruct (Nat.eq_dec j n) as [-> | Hne];
        [exact E | apply Hnone; lia].
  - right. exists k. repeat split; [lia | exact Hf | exact Hbefore].
Qed.

(** A batch none of whose statements fails goes through. *)
Lemma for_credentials_passes (env : Env) (user : User) (records : list json) :
  Forall (fun c => record_id c <> None) records ->
  forall st,
    (forall j, j < List.length (flat_map (import_statements env user) records) ->
               db_fails env (List.length (executed st) + j) = false) ->
    for_credentials env user records st
    = (Ok tt,
       {| tdb := replay env (flat_map (import_statements env user) records) (tdb st);
          executed := (executed st
                         ++ flat_map (import_statements env user) records)%list |}).
Proof.
  induction 1 as [|c rest Hc _ IH]; intros st Hok; simpl.
  - unfold ret. rewrite app_nil_r. now destruct st.
  - destruct (record_id c) as [i|] eqn:E; [|contradiction].
    destruct (importCredential_outcome env user c i st E) as [Hpass _].
    simpl flat_map in Hok. rewrite length_app in Hok.
    unfold bind. rewrite Hpass by (intros j Hj; apply Hok; lia).
    rewrite IH.
    + simpl. now rewrite replay_app, app_assoc.
    + intros j Hj. simpl. rewrite length_app, <- Nat.add_assoc. apply Hok. lia.
Qed.

(** X5. The first statement that fails decides a batch of records that
    all carry a string identifier.  When none of the statements of the
    batch fails, every one of them is sent, record by record (the upsert
    of the prepared record, the upsert of its link to the assignee and,
    on Postgres, the repair), and the transaction commits; otherwise
    exactly the statements before the first failing one are sent and the
    transaction ends in a rollback, the failure being thrown on. *)
Theorem statements_follow_the_records
        (env : Env) (flags : Flags) (records : list json) (user : User) (db : Db) :
  batch_of env flags records -> assignee env flags = Ok user ->
  Forall (fun c => record_id c <> None) records ->
  let o := run env flags db in
  let all := flat_map (import_statements env user) records in
  ((forall j, j < List.length all -> db_fails env j = false) /\
   thrown o = None /\
   trace o = START_TRANSACTION :: map Statement all ++ [COMMIT] /\
   storage o = replay env all db)
  \/ (exists k,
        k < List.length all /\ db_fails env k = true /\
        (forall j, j < k -> db_fails env j = false) /\
        thrown o = Some (QueryFailedError "statement failed") /\
        trace o
        = START_TRANSACTION :: map Statement (firstn k all) ++ [ROLLBACK]).
Proof.
  intros Hb Hu Hids. cbv zeta.
  rewrite (run_batch env flags records user db Hb Hu). unfold transaction.
  destruct (first_failure (db_fails env)
              (List.length (flat_map (import_statements env user) records)))
    as [Hnone | (k & Hk & Hf & Hbefore)].
  - left. rewrite (for_credentials_passes env user records Hids) by exact Hnone.
    simpl. auto.
  - right. exists k.
    rewrite (for_credentials_fault env user records Hids k) by assumption.
    simpl. auto.
Qed.

Lemma statements_follow_the_records_witness :
  let o := run Scenario.flaky (Scenario.import_file "both.json") Scenario.stale_db in
  List.length (statements_of (trace o)) = 4 /\
  thrown o = Some (QueryFailedError "statement failed").
Proof.
  cbv zeta.
  destruct (statements_follow_the_records
              Scenario.flaky (Scenario.import_file "both.json")
              [Scenario.c1; Scenario.c2] Scenario.u1 Scenario.stale_db)
    as [(Hnone & _) | (k & Hk & Hf & Hbefore & Hth & Htr)].
  - unfold batch_of. split; [by_evaluation|]. left. by_evaluation.
  - reflexivity.
  - repeat constructor; discriminate.
  - exfalso. specialize (Hnone 4 ltac:(vm_compute; lia)). discriminate.
  - split; [reflexivity | exact Hth].
Defined.

Lemma import_statements_Forall (env : Env) (user : User) (P : statement -> Prop)
      (records : list json) :
  (forall c i, record_id c = Some i ->
     P (UpsertCredentials (prepared env c)) /\
     P (UpsertSharedCredentials (link_of env i user)) /\
     (database_type env = "postgresdb" -> P (Query (setval_sql env)))) ->
  Forall P (flat_map (import_statements env user) records).
Proof.
  intros HP. induction records as [|c rest IH]; [constructor|].
  simpl. apply Forall_app. split; [|exact IH].
  unfold import_statements. destruct (record_id c) as [i|] eqn:E; [|constructor].
  destruct (HP c i E) as (H1 & H2 & H3). unfold store_statements.
  destruct (database_type env =? "postgresdb") eqn:Epg; repeat constructor;
    try assumption.
  apply H3. now apply String.eqb_eq.
Qed.

(** Every statement of every invocation is one of the three that
    storing a record sends. *)
Lemma run_statements_Forall (env : Env) (flags : Flags) (db : Db)
      (P : statement -> Prop) :
  (forall user c i,
     assignee env flags = Ok user -> record_id c = Some i ->
     P (UpsertCredentials (prepared env c)) /\
     P (UpsertSharedCredentials (link_of env i user)) /\
     (database_type env = "postgresdb" -> P (Query (setval_sql env)))) ->
  Forall P (statements_of (trace (run env flags db))).
Proof.
  intros HP. destruct (run_shape env flags db)
    as [(Htr & _) | (user & records & new & _ & Hu & Hpre & Hend)].
  - rewrite Htr. constructor.
  - assert (Hnew : Forall P new).
    { apply (Forall_prefix P new _ Hpre). apply import_statements_Forall.
      intros c i. now apply HP. }
    destruct Hend as [(_ & _ & _ & Hrun) | (e & Hrun)]; rewrite Hrun; simpl trace.
    + now rewrite (statements_of_transaction new COMMIT) by now left.
    + now rewrite (statements_of_transaction new ROLLBACK) by now right.
Qed.

(** X6. Every ownership link an invocation writes, committed or not,
    belongs to the resolved assignee and carries the credential-owner
    role: the command never writes a link for another account or with
    another role. *)
Theorem links_belong_to_the_assignee
        (env : Env) (flags : Flags) (db : Db) (l : SharedCredentials) :
  In (UpsertSharedCredentials l) (statements_of (trace (run env flags db))) ->
  exists user, assignee env flags = Ok user /\
               userId l = id user /\ role l = CREDENTIAL_OWNER env.
Proof.
  intros Hin.
  assert (H : Forall (fun s => match s with
                               | UpsertSharedCredentials l =>
                                   exists user, assignee env flags = Ok user /\
                                     userId l = id user /\
                                     role l = CREDENTIAL_OWNER env
                               | _ => True
                               end)
                     (statements_of (trace (run env flags db)))).
  { apply run_statements_Forall. intros user c i Hu _. simpl.
    split; [exact I|]. split; [exists user; auto | auto]. }
  rewrite Forall_forall in H. exact (H _ Hin).
Qed.

Lemma links_belong_to_the_assignee_witness :
  exists user, assignee Scenario.sqlite (Scenario.import_as "u2" "both.json") = Ok user /\
               id user = "u2".
Proof.
  destruct (links_belong_to_the_assignee
              Scenario.sqlite (Scenario.import_as "u2" "both.json") Scenario.stale_db
              {| credentialsId := "c2"; userId := "u2"; role := "credential:owner" |})
    as (user & Hu & Hid & _).
  - vm_compute. tauto.
  - exists user. split; [exact Hu | now rewrite <- Hid].
Defined.

Lemma prepared_payload (env : Env) (credential : json) :
  payload_type (prepared env credential) <> "object".
Proof.
  unfold prepared, payload_type.
  destruct (get credential "data") as [[d|]|e] eqn:G.
  - destruct (typeof (Some d) =? "object") eqn:T.
    + destruct credential; try discriminate.
      unfold setData, set, get. rewrite assoc_upsert_same. discriminate.
    + rewrite G. now apply String.eqb_neq.
  - rewrite G. discriminate.
  - rewrite G. discriminate.
Qed.

(** X7. Whatever record the loop reads, other than null, the value it
    hands to [storeCredential] never has a [data] whose [typeof] is
    object: a payload that is an object, an array or null has been
    replaced by the string of the cipher, and a record whose payload is
    anything else (a string, a number, a boolean, or absent) is handed
    on exactly as it was read. *)
Theorem no_object_payload_is_sent
        (env : Env) (user : User) (credential : json) (data : value)
        (st : TxState) :
  get credential "data" = Ok data ->
  exists handed,
    importCredential env user credential st
    = storeCredential env handed user st /\
    payload_type handed <> "object" /\
    (typeof data <> "object" -> handed = credential) /\
    (typeof data = "object" ->
     exists d, data = Some d /\
       get handed "data"
       = Ok (Some (JStr (encrypt env d (encryptionKey env))))).
Proof.
  intros G. exists (prepared env credential).
  split; [now apply (importCredential_prepared env user credential data)|].
  split; [apply prepared_payload|]. unfold prepared. rewrite G. split.
  - intros Hno. destruct data as [d|]; [|reflexivity].
    apply String.eqb_neq in Hno. now rewrite Hno.
  - intros Hobj. destruct data as [d|]; [|discriminate].
    exists d. split; [reflexivity|]. rewrite Hobj, String.eqb_refl.
    destruct credential; try discriminate.
    unfold setData, set, get. now rewrite assoc_upsert_same.
Qed.

Lemma no_object_payload_is_sent_witness :
  exists handed,
    importCredential Scenario.more Scenario.u1 Scenario.c1
      {| tdb := Scenario.stale_db; executed := [] |}
    = storeCredential Scenario.more handed Scenario.u1
        {| tdb := Scenario.stale_db; executed := [] |} /\
    payload_type handed = "string".
Proof.
  destruct (no_object_payload_is_sent
              Scenario.more Scenario.u1 Scenario.c1
              (Some (JObj [("token", JStr "secret")]))
              {| tdb := Scenario.stale_db; executed := [] |} eq_refl)
    as (handed & Hrun & _ & _ & Hobj).
  exists handed. split; [exact Hrun|].
  destruct (Hobj eq_refl) as (d & _ & Hget).
  unfold payload_type. now rewrite Hget.
Defined.

(** X8. Re-importing a record as it was stored is the same as
    importing it as it was read: preparing a record twice changes
    nothing, so an encrypted payload is never encrypted again. *)
Theorem prepared_once (env : Env) (user : User) (credential : json) (st : TxState) :
  prepared env (prepared env credential) = prepared env credential /\
  importCredential env user (prepared env credential) st
  = importCredential env user credential st.
Proof.
  assert (Hidem : prepared env (prepared env credential) = prepared env credential).
  { pose proof (prepared_payload env credential) as Hp.
    unfold payload_type in Hp. unfold prepared at 1.
    destruct (get (prepared env credential) "data") as [[d|]|e]; try reflexivity.
    destruct (typeof (Some d) =? "object") eqn:T; [|reflexivity].
    apply String.eqb_eq in T. contradiction. }
  split; [exact Hidem|].
  destruct (get credential "data") as [data|e] eqn:G.
  - rewrite (importCredential_prepared env user credential data st G).
    assert (G' : exists data', get (prepared env credential) "data" = Ok data').
    { unfold prepared. rewrite G. destruct data as [d|]; [|eauto].
      destruct (typeof (Some d) =? "object"); [|eauto].
      destruct credential; try discriminate. simpl. eauto. }
    destruct G' as [data' G'].
    rewrite (importCredential_prepared env user _ data' st G'). now rewrite Hidem.
  - unfold prepared. now rewrite G.
Qed.

(** ** The sequence *)

Lemma seq_effect_not_query (env : Env) (s : statement) (db : Db) :
  is_query s = false ->
  credentials_entity_id_seq (effect env s db) = credentials_entity_id_seq db.
Proof.
  destruct s as [row | l | sql]; simpl; intros H; try discriminate.
  - now destruct (record_id row).
  - reflexivity.
Qed.

Lemma seq_replay_no_query (env : Env) (stmts : list statement) (db : Db) :
  Forall (fun s => is_query s = false) stmts ->
  credentials_entity_id_seq (replay env stmts db) = credentials_entity_id_seq db.
Proof.
  intros H. revert db. induction H as [|s stmts Hs _ IH]; intros db; [reflexivity|].
  change (replay env (s :: stmts) db) with (replay env stmts (effect env s db)).
  now rewrite IH, seq_effect_not_query.
Qed.

(** X9. The only query the command ever sends is the sequence repair of
    the credential table, with the configured table prefix, and it sends
    it on Postgres only: on every other backend no invocation sends a
    query, and the sequence is as it was. *)
Theorem repair_is_for_postgres_only (env : Env) (flags : Flags) (db : Db) :
  let o := run env flags db in
  (forall sql, In (Query sql) (statements_of (trace o)) ->
     database_type env = "postgresdb" /\
     sql = "SELECT setval('" ++ tablePrefix env
             ++ "credentials_entity_id_seq', (SELECT MAX(id) from "
             ++ tablePrefix env ++ "credentials_entity))")
  /\ (database_type env <> "postgresdb" ->
      credentials_entity_id_seq (storage o) = credentials_entity_id_seq db).
Proof.
  cbv zeta.
  assert (H : Forall (fun s => match s with
                               | Query sql =>
                                   database_type env = "postgresdb" /\
                                   sql = setval_sql env
                               | _ => True
                               end)
                     (statements_of (trace (run env flags db)))).
  { apply run_statements_Forall. intros user c i _ _. simpl. auto. }
  split.
  - intros sql Hin. rewrite Forall_forall in H. exact (H _ Hin).
  - intros Hpg.
    destruct (run_shape env flags db)
      as [(_ & Hst & _) | (user & records & new & _ & _ & _ & Hend)];
      [now rewrite Hst|].
    assert (Hnew : Forall (fun s => is_query s = false) new ->
                   credentials_entity_id_seq (replay env new db)
                   = credentials_entity_id_seq db)
      by apply seq_replay_no_query.
    assert (Hno : forall stmts,
               Forall (fun s => match s with
                                | Query sql =>
                                    database_type env = "postgresdb" /\
                                    sql = setval_sql env
                                | _ => True
                                end) stmts ->
               Forall (fun s => is_query s = false) stmts).
    { intros stmts Hs. eapply Forall_impl; [|exact Hs].
      intros [row | l | sql]; simpl; try reflexivity.
      intros [Hq _]. contradiction. }
    destruct Hend as [(_ & _ & _ & Hrun) | (e & Hrun)];
      rewrite Hrun in H |- *; simpl trace in H; simpl.
    + rewrite (statements_of_transaction new COMMIT) in H by now left.
      apply Hnew, Hno, H.
    + rewrite (statements_of_transaction new ROLLBACK) in H by now right.
      apply Hnew, Hno, H.
Qed.

Lemma repair_is_for_postgres_only_witness :
  credentials_entity_id_seq
    (storage (run Scenario.more_sqlite (Scenario.import_file "versions.json")
                  Scenario.stale_db)) = None
  /\ database_type Scenario.more = "postgresdb".
Proof.
  destruct (repair_is_for_postgres_only
              Scenario.more_sqlite (Scenario.import_file "versions.json")
              Scenario.stale_db) as [_ Hseq].
  destruct (repair_is_for_postgres_only
              Scenario.more (Scenario.import_file "versions.json")
              Scenario.stale_db) as [Hquery _].
  split.
  - rewrite Hseq; [reflexivity | discriminate].
  - apply (Hquery "SELECT setval('n8n_credentials_entity_id_seq', (SELECT MAX(id) from n8n_credentials_entity))").
    vm_compute. tauto.
Defined.

(** ** What the tables keep *)

Lemma upsert_keys (k : string) {A : Type} (a : A) (t : list (string * A)) :
  map fst (upsert k a t)
  = if in_dec string_dec k (map fst t) then map fst t
    else (map fst t ++ [k])%list.
Proof.
  induction t as [|[k' a'] t IH]; simpl; [reflexivity|].
  destruct (k' =? k) eqn:E.
  - apply String.eqb_eq in E. subst k'. simpl.
    destruct (string_dec k k); [|contradiction].
    reflexivity.
  - simpl. rewrite IH. apply String.eqb_neq in E.
    destruct (string_dec k' k); [contradiction|].
    destruct (in_dec string_dec k (map fst t)); reflexivity.
Qed.

Lemma upsert_keys_prefix (k : string) {A : Type} (a : A) (t : list (string * A)) :
  is_prefix (map fst t) (map fst (upsert k a t)).
Proof.
  rewrite upsert_keys. destruct (in_dec string_dec k (map fst t)).
  - apply is_prefix_refl.
  - now eexists.
Qed.

Lemma upsert_key_in (k : string) {A : Type} (a : A) (t : list (string * A)) :
  In k (map fst (upsert k a t)).
Proof.
  rewrite upsert_keys. destruct (in_dec string_dec k (map fst t)); [assumption|].
  apply in_or_app. right. now left.
Qed.

Lemma is_prefix_trans {A : Type} (a b c : list A) :
  is_prefix a b -> is_prefix b c -> is_prefix a c.
Proof. intros [r1 ->] [r2 ->]. exists (r1 ++ r2)%list. now rewrite app_assoc. Qed.

Lemma is_prefix_In {A : Type} (a b : list A) (x : A) :
  is_prefix a b -> In x a -> In x b.
Proof. intros [r ->] H. apply in_or_app. now left. Qed.

Lemma upsert_link_keys_prefix (l : SharedCredentials) (t : list SharedCredentials) :
  is_prefix (map link_key t) (map link_key (upsert_link l t)).
Proof.
  destruct (in_dec key_eq_dec (link_key l) (map link_key t)) as [Hin | Hout].
  - rewrite upsert_link_keys_present by assumption. apply is_prefix_refl.
  - rewrite upsert_link_keys_fresh by assumption. now eexists.
Qed.

Lemma upsert_link_In (l l0 : SharedCredentials) (t : list SharedCredentials) :
  In l (upsert_link l0 t) -> l = l0 \/ In l t.
Proof.
  induction t as [|r t IH]; simpl.
  - intros [<- | []]. now left.
  - destruct (same_link r l0); simpl; intros [<- | H]; auto.
    destruct (IH H); auto.
Qed.

Lemma upsert_link_keeps (l l0 : SharedCredentials) (t : list SharedCredentials) :
  In l t -> link_key l <> link_key l0 -> In l (upsert_link l0 t).
Proof.
  intros Hin Hne. induction t as [|r t IH]; simpl; [contradiction|].
  destruct (same_link r l0) eqn:E; simpl.
  - destruct Hin as [-> | Hin]; [|now right].
    apply same_link_key in E. contradiction.
  - destruct Hin as [-> | Hin]; [now left | right; now apply IH].
Qed.

Lemma effect_keys_prefix (env : Env) (s : statement) (db : Db) :
  is_prefix (map fst (credentials_entity db))
            (map fst (credentials_entity (effect env s db)))
  /\ is_prefix (map link_key (shared_credentials db))
               (map link_key (shared_credentials (effect env s db))).
Proof.
  destruct s as [row | l | sql]; simpl.
  - destruct (record_id row); simpl; split;
      try apply is_prefix_refl. apply upsert_keys_prefix.
  - split; [apply is_prefix_refl | apply upsert_link_keys_prefix].
  - rewrite credentials_setval, shared_setval. split; apply is_prefix_refl.
Qed.

Lemma replay_keys_prefix (env : Env) (stmts : list statement) (db : Db) :
  is_prefix (map fst (credentials_entity db))
            (map fst (credentials_entity (replay env stmts db)))
  /\ is_prefix (map link_key (shared_credentials db))
               (map link_key (shared_credentials (replay env stmts db))).
Proof.
  revert db. induction stmts as [|s stmts IH]; intros db.
  - split; apply is_prefix_refl.
  - change (replay env (s :: stmts) db) with (replay env stmts (effect env s db)).
    destruct (effect_keys_prefix env s db) as [H1 H2].
    destruct (IH (effect env s db)) as [H3 H4].
    split; eapply is_prefix_trans; eassumption.
Qed.

(** X10. An import never deletes and never reorders: the identifiers of
    the credential table as it was are, in their order, the beginning of
    the identifiers of the table as it is left, and likewise for the key
    pairs of the ownership links; what an import adds comes after. *)
Theorem tables_only_grow (env : Env) (flags : Flags) (db : Db) :
  let after := storage (run env flags db) in
  is_prefix (map fst (credentials_entity db)) (map fst (credentials_entity after))
  /\ is_prefix (map link_key (shared_credentials db))
               (map link_key (shared_credentials after)).
Proof.
  cbv zeta.
  destruct (run_outcomes env flags)
    as [(th & lg & H) | [(user & stmts & lg & _ & H) | (stmts & e & H)]];
    rewrite H; simpl storage.
  - split; apply is_prefix_refl.
  - apply replay_keys_prefix.
  - split; apply is_prefix_refl.
Qed.

Lemma links_resolve_import (env : Env) (user : User) (c : json) (db : Db) :
  links_resolve db -> links_resolve (replay env (import_statements env user c) db).
Proof.
  intros Hdb. unfold import_statements.
  destruct (record_id c) as [i|] eqn:E; [|exact Hdb].
  unfold store_statements, links_resolve.
  assert (Hbase : forall l,
             In l (upsert_link (link_of env i user) (shared_credentials db)) ->
             In (credentialsId l)
                (map fst (upsert i (prepared env c) (credentials_entity db)))).
  { intros l Hl. apply upsert_link_In in Hl as [-> | Hl].
    - apply upsert_key_in.
    - eapply is_prefix_In; [apply upsert_keys_prefix | now apply Hdb]. }
  destruct (database_type env =? "postgresdb"); simpl;
    rewrite record_id_prepared, E; simpl.
  - rewrite credentials_setval, shared_setval. exact Hbase.
  - exact Hbase.
Qed.

(** X11. An import keeps the links resolvable: when every ownership
    link referred to a stored credential before the invocation, every
    link does so after it; a link is only ever written after the
    credential it refers to. *)
Theorem links_stay_resolvable (env : Env) (flags : Flags) (db : Db) :
  links_resolve db -> links_resolve (storage (run env flags db)).
Proof.
  intros Hdb.
  destruct (run_shape env flags db)
    as [(_ & Hst & _) | (user & records & new & _ & _ & _ & Hend)];
    [now rewrite Hst|].
  destruct Hend as [(_ & _ & Hall & Hrun) | (e & Hrun)]; [|now rewrite Hrun].
  rewrite Hrun. simpl storage. subst new. clear Hrun.
  revert db Hdb. induction records as [|c rest IH]; intros db Hdb; [exact Hdb|].
  simpl flat_map. rewrite replay_app. apply IH. now apply links_resolve_import.
Qed.

Lemma links_stay_resolvable_witness :
  links_resolve
    (storage (run Scenario.more (Scenario.import_file "versions.json")
                  Scenario.stale_db)).
Proof.
  apply (links_stay_resolvable Scenario.more (Scenario.import_file "versions.json")
                               Scenario.stale_db).
  intros l [<- | []]. simpl. now left.
Defined.

(** ** Rows and links an import leaves alone *)

(** How an invocation over a known batch leaves storage. *)
Lemma batch_storage (env : Env) (flags : Flags) (records : list json) (db : Db) :
  batch_of env flags records ->
  (thrown (run env flags db) <> None /\
   credentials_entity (storage (run env flags db)) = credentials_entity db /\
   shared_credentials (storage (run env flags db)) = shared_credentials db)
  \/ exists user,
       assignee env flags = Ok user /\
       thrown (run env flags db) = None /\
       Forall (fun c => record_id c <> None) records /\
       storage (run env flags db)
       = replay env (flat_map (import_statements env user) records) db.
Proof.
  intros Hb. destruct (assignee env flags) as [user | e] eqn:Hu.
  - rewrite (run_batch env flags records user db Hb Hu). unfold transaction.
    destruct (for_credentials env user records _) as [[[]|e] st'] eqn:E.
    + right. exists user. apply for_credentials_ok in E as (Hids & _ & Hdb).
      simpl in Hdb. rewrite <- Hdb. auto.
    + left. simpl. repeat split. discriminate.
  - left. rewrite (run_unresolved env flags db e (proj1 Hb) Hu). simpl.
    repeat split. discriminate.
Qed.

Lemma assoc_upserts_other {A : Type} (k : string) (rows t : list (string * A)) :
  ~ In k (map fst rows) ->
  assoc k (fold_left (fun t p => upsert (fst p) (snd p) t) rows t) = assoc k t.
Proof.
  revert t. induction rows as [|[k' a] rows IH]; intros t H; simpl; [reflexivity|].
  simpl in H. rewrite IH by tauto. apply assoc_upsert_other. tauto.
Qed.

Lemma rows_of_app (env : Env) (a b : list json) :
  rows_of env (a ++ b) = (rows_of env a ++ rows_of env b)%list.
Proof. unfold rows_of. apply flat_map_app. Qed.

Lemma ids_of_app (a b : list json) :
  ids_of (a ++ b) = (ids_of a ++ ids_of b)%list.
Proof. unfold ids_of. apply flat_map_app. Qed.

(** X12. An import of records that all carry a string identifier
    leaves alone every credential whose identifier none of them carries:
    whatever the outcome, the row stored under such an identifier is the
    row that was stored before. *)
Theorem other_credentials_untouched
        (env : Env) (flags : Flags) (records : list json) (db : Db) (k : string) :
  batch_of env flags records ->
  Forall (fun c => record_id c <> None) records ->
  ~ In k (ids_of records) ->
  assoc k (credentials_entity (storage (run env flags db)))
  = assoc k (credentials_entity db).
Proof.
  intros Hb _ Hk.
  destruct (batch_storage env flags records db Hb)
    as [(_ & Hc & _) | (user & _ & _ & _ & Hst)];
    [now rewrite Hc | rewrite Hst].
  rewrite credentials_replay_import. apply assoc_upserts_other.
  now rewrite ids_of_rows.
Qed.

Lemma other_credentials_untouched_witness :
  assoc "c9" (credentials_entity
                (storage (run Scenario.more (Scenario.import_file "versions.json")
                              Scenario.stale_db)))
  = Some (JObj [("id", JStr "c9"); ("data", JStr "U2FsdGVkX2")]).
Proof.
  rewrite (other_credentials_untouched
             Scenario.more (Scenario.import_file "versions.json")
             [Scenario.c1; Scenario.c1_renamed; Scenario.c2] Scenario.stale_db "c9").
  - reflexivity.
  - unfold batch_of. split; [by_evaluation|]. left. by_evaluation.
  - repeat constructor; discriminate.
  - vm_compute. intuition discriminate.
Defined.

Lemma upsert_links_keep (l : SharedCredentials) (ls t : list SharedCredentials) :
  In l t -> Forall (fun l0 => link_key l <> link_key l0) ls ->
  In l (fold_left (fun t l0 => upsert_link l0 t) ls t).
Proof.
  intros Hin H. revert t Hin. induction H as [|l0 ls Hl0 _ IH]; intros t Hin;
    simpl; [assumption|].
  apply IH. now apply upsert_link_keeps.
Qed.

(** X13. An import never removes or rewrites an ownership link of
    another account: a link whose user is not the resolved assignee is
    in the table after the invocation as it was before, whatever the
    outcome. *)
Theorem links_of_others_are_kept
        (env : Env) (flags : Flags) (db : Db) (l : SharedCredentials) :
  In l (shared_credentials db) ->
  (forall user, assignee env flags = Ok user -> userId l <> id user) ->
  In l (shared_credentials (storage (run env flags db))).
Proof.
  intros Hin Hother.
  destruct (run_shape env flags db)
    as [(_ & Hst & _) | (user & records & new & _ & Hu & _ & Hend)];
    [now rewrite Hst|].
  destruct Hend as [(_ & _ & Hall & Hrun) | (e & Hrun)]; [|now rewrite Hrun].
  rewrite Hrun. simpl storage. subst new.
  rewrite shared_replay, links_of_import. apply upsert_links_keep; [assumption|].
  unfold new_links. rewrite Forall_map. apply Forall_forall. intros i _.
  unfold link_key. simpl. intros Hk. inversion Hk. now apply (Hother user Hu).
Qed.

Lemma links_of_others_are_kept_witness :
  In {| credentialsId := "c9"; userId := "u2"; role := "credential:owner" |}
     (shared_credentials
        (storage (run Scenario.more (Scenario.import_file "versions.json")
                      Scenario.stale_db))).
Proof.
  apply (links_of_others_are_kept
           Scenario.more (Scenario.import_file "versions.json") Scenario.stale_db).
  - now left.
  - intros user Hu. vm_compute in Hu. inversion Hu. discriminate.
Defined.

(** X14. When a batch holds several records with one identifier, the
    last of them is the one stored: after an import that returns, the
    row under an identifier is the prepared form of the last record of
    the batch that carries it. *)
Theorem last_record_wins
        (env : Env) (flags : Flags) (front back : list json) (c : json)
        (i : string) (db : Db) :
  batch_of env flags (front ++ c :: back) ->
  thrown (run env flags db) = None ->
  record_id c = Some i -> ~ In i (ids_of back) ->
  assoc i (credentials_entity (storage (run env flags db)))
  = Some (prepared env c).
Proof.
  intros Hb Hret Hi Hback.
  destruct (batch_storage env flags _ db Hb)
    as [[Hth _] | (user & _ & _ & _ & Hst)]; [contradiction|].
  rewrite Hst, credentials_replay_import, rows_of_app, fold_left_app.
  change (rows_of env (c :: back))
    with ((match record_id c with
           | Some i => [(i, prepared env c)]
           | None => []
           end) ++ rows_of env back)%list.
  rewrite Hi. simpl. rewrite assoc_upserts_other by now rewrite ids_of_rows.
  apply assoc_upsert_same.
Qed.

Lemma last_record_wins_witness :
  assoc "c1" (credentials_entity
                (storage (run Scenario.more (Scenario.import_file "versions.json")
                              Scenario.stale_db)))
  = Some Scenario.c1_renamed.
Proof.
  apply (last_record_wins
           Scenario.more (Scenario.import_file "versions.json")
           [Scenario.c1] [Scenario.c2] Scenario.c1_renamed "c1" Scenario.stale_db).
  - unfold batch_of. split; [by_evaluation|]. left. by_evaluation.
  - reflexivity.
  - reflexivity.
  - vm_compute. intuition discriminate.
Defined.

Lemma unidentified_no_id (c : json) : unidentified c -> record_id c = None.
Proof.
  intros [-> | (fields & -> & H)]; [reflexivity|]. simpl. now rewrite H.
Qed.

(** X15. One record that is null, or an object without any [id], fails
    the whole batch: the invocation throws, no transaction is
    committed, and the credential and ownership-link tables are as
    before, also for the records before and after it. *)
Theorem record_without_id_fails_the_batch
        (env : Env) (flags : Flags) (records : list json) (c : json) (db : Db) :
  batch_of env flags records -> In c records -> unidentified c ->
  let o := run env flags db in
  thrown o <> None /\
  ~ In COMMIT (trace o) /\
  credentials_entity (storage o) = credentials_entity db /\
  shared_credentials (storage o) = shared_credentials db.
Proof.
  intros Hb Hin Hc. cbv zeta. apply unidentified_no_id in Hc.
  destruct (batch_storage env flags records db Hb)
    as [(Hth & Hcr & Hsh) | (user & _ & _ & Hids & _)].
  - repeat split; try assumption.
    destruct (run_shape env flags db)
      as [(Htr & _) | (user & recs & new & _ & _ & _ & Hend)];
      [now rewrite Htr|].
    destruct Hend as [(_ & _ & _ & Hrun) | (e & Hrun)].
    + rewrite Hrun in Hth. now contradiction Hth.
    + rewrite Hrun. simpl. intros [H | H]; [discriminate|].
      apply in_app_or in H as [H | [H | []]]; [|discriminate].
      apply in_map_iff in H as (x & Hx & _). discriminate.
  - rewrite Forall_forall in Hids. now apply Hids in Hin.
Qed.

Lemma record_without_id_fails_the_batch_witness :
  credentials_entity
    (storage (run Scenario.more (Scenario.import_file "anonymous.json")
                  Scenario.stale_db))
  = credentials_entity Scenario.stale_db.
Proof.
  apply (record_without_id_fails_the_batch
           Scenario.more (Scenario.import_file "anonymous.json")
           [Scenario.c1; Scenario.anonymous] Scenario.anonymous Scenario.stale_db).
  - unfold batch_of. split; [by_evaluation|]. left. by_evaluation.
  - right. now left.
  - right. eexists. split; reflexivity.
Defined.

(** ** Files that cannot be read *)

Lemma for_files_through (env : Env) (user : User)
      (sound : forall n, db_fails env n = false)
      (good : list string) (records : list json) (more : list string) :
  Forall2 (holds env) good records ->
  Forall (fun c => record_id c <> None) records ->
  forall st,
    for_files env user (good ++ more) st
    = for_files env user more
        {| tdb := replay env (flat_map (import_statements env user) records) (tdb st);
           executed := (executed st
                          ++ flat_map (import_statements env user) records)%list |}.
Proof.
  induction 1 as [|f c good records (content & Hread & Hparse) _ IH];
    intros Hids st; simpl.
  - rewrite app_nil_r. now destruct st.
  - inversion Hids as [|? ? Hc Hrest]; subst.
    destruct (record_id c) as [i|] eqn:E; [|contradiction].
    rewrite Hread. simpl. unfold bind at 1. unfold ret at 1.
    rewrite Hparse. simpl. unfold bind at 1. unfold ret at 1.
    unfold bind at 1.
    rewrite (importCredential_returns env user sound c i st E).
    rewrite (IH Hrest). simpl. now rewrite replay_app, app_assoc.
Qed.

(** X16. In directory mode the files are read inside the transaction:
    when a file cannot be read or parsed, the records of the files
    before it have been sent to the database and are rolled back with
    the transaction; the error of the file is thrown on and the
    credential and ownership-link tables are as before. *)
Theorem unreadable_file_rolls_back
        (env : Env) (flags : Flags) (user : User) (good : list string)
        (bad : string) (rest : list string) (records : list json) (e : exn)
        (db : Db) :
  passes_input_checks env flags -> separate flags = true ->
  assignee env flags = Ok user ->
  glob_json env (inputPath env flags) = (good ++ bad :: rest)%list ->
  Forall2 (holds env) good records ->
  Forall (fun c => record_id c <> None) records ->
  (forall n, db_fails env n = false) ->
  (readFileSync env bad = Throw e \/
   exists content, readFileSync env bad = Ok content /\
                   jsonParse env content = Throw e) ->
  let o := run env flags db in
  thrown o = Some e /\
  logged o = [] /\
  trace o
  = START_TRANSACTION
      :: map Statement (flat_map (import_statements env user) records)
      ++ [ROLLBACK] /\
  credentials_entity (storage o) = credentials_entity db /\
  shared_credentials (storage o) = shared_credentials db.
Proof.
  intros [Hin Hdir] Hsep Hu Hglob Hgood Hids Hsound Hbad. cbv zeta.
  assert (Hrun : run env flags db
                 = threw e
                     (rolled_back db
                        (replay env (flat_map (import_statements env user) records)
                                db))
                     (START_TRANSACTION
                        :: map Statement
                               (flat_map (import_statements env user) records)
                        ++ [ROLLBACK])).
  { unfold run. rewrite Hin, Hdir, Hu, Hsep. simpl. rewrite Hglob.
    unfold transaction.
    rewrite (for_files_through env user Hsound good records (bad :: rest)
               Hgood Hids).
    simpl for_files.
    destruct Hbad as [Hread | (content & Hread & Hparse)]; rewrite Hread; simpl.
    - reflexivity.
    - unfold bind at 1. unfold ret at 1. rewrite Hparse. reflexivity. }
  rewrite Hrun. simpl. repeat split.
Qed.

Lemma unreadable_file_rolls_back_witness :
  let o := run Scenario.more (Scenario.import_directory "backups/broken")
               Scenario.stale_db in
  thrown o <> None /\
  List.length (trace o) = 5 /\
  credentials_entity (storage o) = credentials_entity Scenario.stale_db /\
  shared_credentials (storage o) = shared_credentials Scenario.stale_db.
Proof.
  cbv zeta.
  destruct (unreadable_file_rolls_back
              Scenario.more (Scenario.import_directory "backups/broken")
              Scenario.u1 ["/backups/broken/a.json"] "/backups/broken/b.json"
              ["/backups/latest/c2.json"] [Scenario.c1]
              (SyntaxError (JSON_error Scenario.more "{'id':'c2','na"))
              Scenario.stale_db)
    as (Hth & _ & Htr & Hc & Hs).
  - by_evaluation.
  - reflexivity.
  - reflexivity.
  - reflexivity.
  - repeat constructor. eexists. split; reflexivity.
  - repeat constructor. discriminate.
  - reflexivity.
  - right. eexists. split; reflexivity.
  - rewrite Hth, Htr. repeat split; try assumption. discriminate.
Defined.

(** X17. In single-file mode a transaction is opened only for a file
    that was read and parsed to an array, after the assignee was
    resolved: a missing file, a directory given as file, text that is
    not JSON or a value that is not an array end the invocation without
    any statement. *)
Theorem single_file_transaction_needs_an_array
        (env : Env) (flags : Flags) (db : Db) :
  separate flags = false -> trace (run env flags db) <> [] ->
  exists user records,
    assignee env flags = Ok user /\ single_file env flags records.
Proof.
  intros Hsep. unfold run, single_file. rewrite Hsep.
  destruct (truthy (input flags)) eqn:Hin; simpl; [|contradiction].
  destruct (assignee env flags) as [user | e]; simpl; [|contradiction].
  destruct (readFileSync env _) as [content | e] eqn:Hread; simpl; [|contradiction].
  destruct (jsonParse env content) as [credentials | e] eqn:Hparse; simpl;
    [|contradiction].
  destruct credentials as [| | | |records|]; simpl; try contradiction.
  intros _. exists user, records. repeat split. now exists content.
Qed.

Lemma single_file_transaction_needs_an_array_witness :
  exists user records,
    assignee Scenario.more (Scenario.import_file "versions.json") = Ok user /\
    single_file Scenario.more (Scenario.import_file "versions.json") records.
Proof.
  apply (single_file_transaction_needs_an_array
           Scenario.more (Scenario.import_file "versions.json") Scenario.empty_db).
  - reflexivity.
  - vm_compute. discriminate.
Defined.

(** ** The path handed to the glob *)






(** ** Importing again *)

Lemma upserts_keys_prefix {A : Type} (rows t : list (string * A)) :
  is_prefix (map fst t)
            (map fst (fold_left (fun t p => upsert (fst p) (snd p) t) rows t)).
Proof.
  revert t. induction rows as [|[k a] rows IH]; intros t; simpl.
  - apply is_prefix_refl.
  - eapply is_prefix_trans; [apply upsert_keys_prefix | apply IH].
Qed.

Lemma upserts_keys_in {A : Type} (rows t : list (string * A)) (k : string) :
  In k (map fst rows) ->
  In k (map fst (fold_left (fun t p => upsert (fst p) (snd p) t) rows t)).
Proof.
  revert t. induction rows as [|[k' a] rows IH]; intros t; simpl; [tauto|].
  intros [-> | H]; [|now apply IH].
  eapply is_prefix_In; [apply upserts_keys_prefix | apply upsert_key_in].
Qed.

Lemma upserts_keys_present {A : Type} (rows t : list (string * A)) :
  (forall k, In k (map fst rows) -> In k (map fst t)) ->
  map fst (fold_left (fun t p => upsert (fst p) (snd p) t) rows t) = map fst t.
Proof.
  revert t. induction rows as [|[k a] rows IH]; intros t H; simpl; [reflexivity|].
  assert (Hk : map fst (upsert k a t) = map fst t).
  { rewrite upsert_keys. destruct (in_dec string_dec k (map fst t)) as [|Hout];
      [reflexivity|]. exfalso. apply Hout, H. now left. }
  rewrite IH; [exact Hk|]. intros k' Hk'. rewrite Hk. apply H. now right.
Qed.

Lemma no_query_elsewhere (env : Env) (user : User) (records : list json) :
  database_type env <> "postgresdb" ->
  Forall (fun s => is_query s = false)
         (flat_map (import_statements env user) records).
Proof.
  intros Hpg. apply import_statements_Forall. intros c i _. simpl.
  repeat split. intros H. contradiction.
Qed.

Lemma effect_same_tables (env : Env) (s : statement) (db1 db2 : Db) :
  credentials_entity db1 = credentials_entity db2 ->
  shared_credentials db1 = shared_credentials db2 ->
  effect env s db1 = effect env s db2
  \/ (credentials_entity (effect env s db1) = credentials_entity (effect env s db2) /\
      shared_credentials (effect env s db1) = shared_credentials (effect env s db2) /\
      credentials_entity_id_seq (effect env s db1) = credentials_entity_id_seq db1 /\
      credentials_entity_id_seq (effect env s db2) = credentials_entity_id_seq db2).
Proof.
  intros Hc Hs. destruct s as [row | l | sql]; simpl.
  - right. destruct (record_id row); simpl; rewrite ?Hc; auto.
  - right. simpl. rewrite Hs. auto.
  - rewrite Hc. destruct (max_id (id_le env) (map fst (credentials_entity db2)));
      simpl.
    + left. now rewrite Hc, Hs.
    + right. auto.
Qed.

(** Replaying statements on two stores with the same tables gives the
    same tables, and the same sequence unless no statement set it. *)
Lemma replay_same_tables (env : Env) (stmts : list statement) (db1 db2 : Db) :
  credentials_entity db1 = credentials_entity db2 ->
  shared_credentials db1 = shared_credentials db2 ->
  credentials_entity_id_seq (replay env stmts db1)
  = credentials_entity_id_seq (replay env stmts db2)
  \/ (credentials_entity_id_seq (replay env stmts db1)
      = credentials_entity_id_seq db1 /\
      credentials_entity_id_seq (replay env stmts db2)
      = credentials_entity_id_seq db2).
Proof.
  revert db1 db2. induction stmts as [|s stmts IH]; intros db1 db2 Hc Hs.
  - right. auto.
  - change (replay env (s :: stmts) db1) with (replay env stmts (effect env s db1)).
    change (replay env (s :: stmts) db2) with (replay env stmts (effect env s db2)).
    destruct (effect_same_tables env s db1 db2 Hc Hs)
      as [Heq | (Hc' & Hs' & H1 & H2)].
    + left. now rewrite Heq.
    + destruct (IH _ _ Hc' Hs') as [H | [H3 H4]]; [now left|].
      right. now rewrite H3, H4.
Qed.

(** X19. A second identical import adds no credential: the identifiers
    of the credential table, in their order, are after the second run
    what they were after the first, and so is the identifier sequence.
    What the second run can change is the content of rows only. *)
Theorem second_import_adds_no_credential (env : Env) (flags : Flags) (db : Db) :
  let first := storage (run env flags db) in
  let second := storage (run env flags first) in
  map fst (credentials_entity second) = map fst (credentials_entity first)
  /\ credentials_entity_id_seq second = credentials_entity_id_seq first.
Proof.
  cbv zeta.
  destruct (run_outcomes env flags)
    as [(th & lg & H) | [(user0 & stmts & lg & _ & H) | (stmts & e & H)]];
    [rewrite !H; simpl; auto | | ].
  2:{ rewrite !H. simpl. split; [reflexivity|].
      destruct (replay_same_tables env stmts
                  (rolled_back db (replay env stmts db)) db eq_refl eq_refl)
        as [Hq | [Hq _]]; exact Hq. }
  destruct (run_shape env flags db)
    as [(Htr & _) | (user & records & new & _ & _ & _ & Hend)];
    [rewrite H in Htr; discriminate|].
  destruct Hend as [(_ & Hids & Hall & Hrun) | (e & Hrun)];
    [|rewrite H in Hrun; discriminate].
  assert (Hsame : stmts = new).
  { rewrite H in Hrun. unfold returned in Hrun.
    assert (Ht : START_TRANSACTION :: map Statement stmts ++ [COMMIT]
                 = START_TRANSACTION :: map Statement new ++ [COMMIT])
      by congruence.
    rewrite <- (statements_of_transaction stmts COMMIT) by now left.
    rewrite <- (statements_of_transaction new COMMIT) by now left.
    now rewrite Ht. }
  rewrite !H. simpl storage. subst stmts new.
  set (S := flat_map (import_statements env user) records).
  assert (Hkeys : map fst (credentials_entity (replay env S (replay env S db)))
                  = map fst (credentials_entity (replay env S db))).
  { unfold S. rewrite (credentials_replay_import env user records (replay env _ db)).
    apply upserts_keys_present. intros k Hk.
    rewrite credentials_replay_import. now apply upserts_keys_in. }
  split; [exact Hkeys|].
  destruct (string_dec (database_type env) "postgresdb") as [Hpg | Hpg].
  - destruct records as [|c rest]; [reflexivity|].
    unfold S.
    rewrite (sequence_after_batch env user (c :: rest) (replay env _ db) Hpg Hids)
      by discriminate.
    rewrite (sequence_after_batch env user (c :: rest) db Hpg Hids) by discriminate.
    fold S. now rewrite Hkeys.
  - unfold S. rewrite !seq_replay_no_query by now apply no_query_elsewhere.
    reflexivity.
Qed.

(** ** The two hints *)

Lemma reportSuccess_is_no_hint (total : value) :
  reportSuccess total <> usage_hint /\ reportSuccess total <> directory_hint.
Proof. unfold reportSuccess, usage_hint, directory_hint. split; discriminate. Qed.

(** X20. The usage hint is the whole log of an invocation exactly when
    no input path (or an empty one) is given, and the hint that the
    argument must be a directory exactly when, in directory mode, the
    given path exists and is not a directory; in both cases the command
    returns without opening a transaction. *)
Theorem hints_are_logged_exactly_when (env : Env) (flags : Flags) (db : Db) :
  let o := run env flags db in
  (logged o = [usage_hint] <-> truthy (input flags) = false)
  /\ (logged o = [directory_hint] <->
      truthy (input flags) = true /\ separate flags = true /\
      existsSync env (flag_value (input flags)) = true /\
      isDirectory env (flag_value (input flags)) = false)
  /\ (logged o = [usage_hint] \/ logged o = [directory_hint] ->
      thrown o = None /\ trace o = [] /\ storage o = db).
Proof.
  cbv zeta.
  assert (Hno : forall total db' tr,
             logged (returned [reportSuccess total] db' tr) <> [usage_hint] /\
             logged (returned [reportSuccess total] db' tr) <> [directory_hint]).
  { intros. simpl. destruct (reportSuccess_is_no_hint total). split; congruence. }
  assert (Hthrew : forall e db' tr,
             logged (threw e db' tr) <> [usage_hint] /\
             logged (threw e db' tr) <> [directory_hint]).
  { intros. simpl. split; discriminate. }
  assert (Hother : forall o',
             logged o' <> [usage_hint] /\ logged o' <> [directory_hint] ->
             truthy (input flags) = true ->
             separate flags && existsSync env (flag_value (input flags))
               && negb (isDirectory env (flag_value (input flags))) = false ->
             (logged o' = [usage_hint] <-> true = false)
             /\ (logged o' = [directory_hint] <->
                 true = true /\ separate flags = true /\
                 existsSync env (flag_value (input flags)) = true /\
                 isDirectory env (flag_value (input flags)) = false)
             /\ (logged o' = [usage_hint] \/ logged o' = [directory_hint] ->
                 thrown o' = None /\ trace o' = [] /\ storage o' = db)).
  { intros o' [H1 H2] Hin Hdir. split; [split; [contradiction | discriminate]|].
    split; [|intros [H | H]; contradiction].
    split; [contradiction|]. intros (_ & Hs & He & Hd).
    rewrite Hs, He, Hd in Hdir. discriminate. }
  unfold run.
  destruct (truthy (input flags)) eqn:Hin; simpl negb; cbv iota.
  2:{ simpl. split; [tauto|]. split; [|auto]. split; [discriminate|].
      intros [H _]. discriminate. }
  destruct (separate flags && existsSync env (flag_value (input flags))
            && negb (isDirectory env (flag_value (input flags)))) eqn:Hdir.
  { simpl. split; [split; discriminate|]. split; [|auto].
    split; [|reflexivity]. intros _.
    apply andb_true_iff in Hdir as [Hdir Hd].
    apply andb_true_iff in Hdir as [Hs He].
    apply negb_true_iff in Hd. auto. }
  destruct (assignee env flags) as [user | e]; [|now apply Hother].
  destruct (separate flags) eqn:Hsep.
  - destruct (transaction _ db) as [[[[]|e] db'] tr]; now apply Hother.
  - destruct (readFileSync env _) as [content | e]; [|now apply Hother].
    destruct (jsonParse env content) as [credentials | e]; [|now apply Hother].
    destruct (get credentials "length") as [total | e]; [|now apply Hother].
    destruct (negb (isArray credentials)); [now apply Hother|].
    destruct (transaction _ db) as [[[[]|e] db'] tr]; now apply Hother.
Qed.

Lemma hints_are_logged_exactly_when_witness :
  logged (run Scenario.more
              {| input := Some ""; separate := true; flag_userId := None |}
              Scenario.stale_db) = [usage_hint]
  /\ isDirectory Scenario.more "versions.json" = false.
Proof.
  destruct (hints_are_logged_exactly_when
              Scenario.more
              {| input := Some ""; separate := true; flag_userId := None |}
              Scenario.stale_db) as ((_ & Husage) & _ & _).
  destruct (hints_are_logged_exactly_when
              Scenario.more (Scenario.import_directory "versions.json")
              Scenario.stale_db) as (_ & (Hdir & _) & _).
  split.
  - apply Husage. reflexivity.
  - apply Hdir. reflexivity.
Defined.

(** ** A batch that goes through *)

(** X21. An import of records that all carry a string identifier, into
    a database that fails no statement, returns: the transaction is
    committed, and afterwards every identifier of the batch has a row in
    the credential table and its link to the assignee, as credential
    owner, in the ownership table. *)
Theorem well_formed_batch_is_stored
        (env : Env) (flags : Flags) (records : list json) (user : User) (db : Db) :
  batch_of env flags records -> assignee env flags = Ok user ->
  Forall (fun c => record_id c <> None) records ->
  (forall n, db_fails env n = false) ->
  let o := run env flags db in
  thrown o = None /\
  last (trace o) ROLLBACK = COMMIT /\
  forall i, In i (ids_of records) ->
    In i (map fst (credentials_entity (storage o))) /\
    In {| credentialsId := i; userId := id user; role := CREDENTIAL_OWNER env |}
       (shared_credentials (storage o)).
Proof.
  intros Hb Hu Hids Hsound. cbv zeta.
  rewrite (run_batch env flags records user db Hb Hu). unfold transaction.
  rewrite (for_credentials_returns env user Hsound records _ Hids). simpl.
  split; [reflexivity|]. split.
  - change (last (START_TRANSACTION
                    :: map Statement (flat_map (import_statements env user) records)
                    ++ [COMMIT]) ROLLBACK = COMMIT).
    rewrite app_comm_cons. apply last_last.
  - intros i Hi. split.
    + rewrite credentials_replay_import. apply upserts_keys_in.
      now rewrite ids_of_rows.
    + rewrite shared_replay, links_of_import.
      assert (Hfound : Forall (fun l => find (fun r => same_link r l)
                                 (fold_left (fun t l => upsert_link l t)
                                    (new_links env user records)
                                    (shared_credentials db)) = Some l)
                              ([] ++ new_links env user records)%list).
      { apply upsert_links_found; [| intros a b [] | constructor].
        unfold new_links. intros a b Ha Hb' Hk.
        apply in_map_iff in Ha as (ia & <- & _).
        apply in_map_iff in Hb' as (ib & <- & _).
        unfold link_key in Hk. simpl in Hk. inversion Hk. reflexivity. }
      simpl in Hfound. rewrite Forall_forall in Hfound.
      assert (Hl : In (link_of env i user) (new_links env user records))
        by (unfold new_links; apply (in_map (fun j => link_of env j user)); exact Hi).
      apply Hfound in Hl. apply find_some in Hl as [Hl _]. exact Hl.
Qed.

Lemma well_formed_batch_is_stored_witness :
  In "c2" (map fst (credentials_entity
                      (storage (run Scenario.more
                                    (Scenario.import_directory "backups/latest")
                                    Scenario.stale_db))))
  /\ In {| credentialsId := "c2"; userId := "u1"; role := "credential:owner" |}
        (shared_credentials
           (storage (run Scenario.more (Scenario.import_directory "backups/latest")
                         Scenario.stale_db))).
Proof.
  destruct (well_formed_batch_is_stored
              Scenario.more (Scenario.import_directory "backups/latest")
              [Scenario.c1; Scenario.c2] Scenario.u1 Scenario.stale_db)
    as (_ & _ & Hstored).
  - unfold batch_of. split; [by_evaluation|]. right.
    split; [reflexivity|]. repeat constructor; eexists; split; reflexivity.
  - reflexivity.
  - repeat constructor; discriminate.
  - reflexivity.
  - apply (Hstored "c2"). vm_compute. tauto.
Defined.
